(** * PII detection and redaction engine (detector.py): embedding and properties

    The development embeds class [PIIDetector] of [detector.py]:
    the four compiled patterns, [detect_standalone_pii],
    [detect_combinatorial_pii], [redact_value] and [process_record], and the
    row loop of [main].

    Text is modelled as lists of 8-bit characters, read as the code points
    U+0000 to U+00FF of Python's [str]; the character classes are those of
    Python on these code points.  Python exceptions are modelled by an error
    type. *)

From Stdlib Require Import Ascii String DecimalString.
From Stdlib Require Import List Bool Arith ZArith Lia.
From Stdlib Require Import Permutation.
Import ListNotations.

Local Open Scope char_scope.
Local Open Scope list_scope.

(** ** Text *)

Definition text := list ascii.

Notation "'T' s" := (list_ascii_of_string s) (at level 9, s at level 0, only parsing).

(** [a == b] *)
Fixpoint text_eqb (a b : text) : bool :=
  match a, b with
  | [], [] => true
  | x :: a', y :: b' => Ascii.eqb x y && text_eqb a' b'
  | _, _ => false
  end.

(** [c in s] for a one-character needle. *)
Definition contains_char (c : ascii) (s : text) : bool :=
  existsb (Ascii.eqb c) s.

Fixpoint starts_with (p s : text) : bool :=
  match p, s with
  | [], _ => true
  | _ :: _, [] => false
  | a :: p', b :: s' => Ascii.eqb a b && starts_with p' s'
  end.

(** [needle in s] for strings: substring test. *)
Fixpoint contains (needle s : text) : bool :=
  starts_with needle s ||
  match s with
  | [] => false
  | _ :: s' => contains needle s'
  end.

(** ** Character classes *)

Definition code (c : ascii) : nat := nat_of_ascii c.

Definition in_range (lo hi : nat) (c : ascii) : bool :=
  ((lo <=? code c)%nat && (code c <=? hi)%nat)%bool.

(** [\d] *)
Definition is_digit (c : ascii) : bool := in_range 48 57 c.

(** [[A-Z]] *)
Definition is_upper (c : ascii) : bool := in_range 65 90 c.

Definition is_lower (c : ascii) : bool := in_range 97 122 c.

(** The code points from U+0080 to U+00FF that are alphanumeric for Python:
    the letters (feminine and masculine ordinal, micro sign, U+00C0 to U+00FF
    without the multiplication and division signs) and the superscript
    digits and fractions. *)
Definition is_latin1_alnum (c : ascii) : bool :=
  in_range 170 170 c || in_range 178 179 c || in_range 181 181 c
  || in_range 185 186 c || in_range 188 190 c || in_range 192 214 c
  || in_range 216 246 c || in_range 248 255 c.

(** [\w] of a [str] pattern: an alphanumeric character or the underscore. *)
Definition is_word (c : ascii) : bool :=
  is_digit c || is_upper c || is_lower c || Ascii.eqb c "_"
  || is_latin1_alnum c.

(** [[\w\.-]] *)
Definition is_handle (c : ascii) : bool :=
  is_word c || Ascii.eqb c "." || Ascii.eqb c "-".

(** Whitespace of [str.split()]: tab, line feed, vertical tab, form feed,
    carriage return, the four separators 28..31, the space, the next-line
    control U+0085 and the no-break space U+00A0. *)
Definition is_space (c : ascii) : bool :=
  in_range 9 13 c || in_range 28 32 c || in_range 133 133 c
  || in_range 160 160 c.

(** [str.lower()]: the letters A to Z and the uppercase letters U+00C0 to
    U+00DE (without the multiplication sign) move up by 32. *)
Definition lower_char (c : ascii) : ascii :=
  if is_upper c || in_range 192 214 c || in_range 216 222 c
  then ascii_of_nat (code c + 32) else c.

Definition lower (s : text) : text := map lower_char s.

(** ** Slices and splitting *)

(** [s[:n]] *)
Definition slice_to (n : nat) (s : text) : text := firstn n s.

(** [s[-n:]] for [n > 0]: the last [n] characters, all of [s] when it is
    shorter. *)
Definition slice_last (n : nat) (s : text) : text :=
  skipn (length s - n) s.

(** [s.split()]: the maximal runs of non-whitespace characters.  [cur] is the
    token being read, reversed. *)
Fixpoint split_ws_aux (cur : text) (s : text) : list text :=
  match s with
  | [] => match cur with [] => [] | _ => [rev cur] end
  | c :: s' =>
      if is_space c
      then match cur with
           | [] => split_ws_aux [] s'
           | _ => rev cur :: split_ws_aux [] s'
           end
      else split_ws_aux (c :: cur) s'
  end.

Definition split_ws (s : text) : list text := split_ws_aux [] s.

(** [s.split(sep, 1)] for a one-character separator, when [sep] occurs: the
    text before its first occurrence and the text after it. *)
Fixpoint split_once (sep : ascii) (s : text) : option (text * text) :=
  match s with
  | [] => None
  | c :: s' =>
      if Ascii.eqb c sep then Some ([], s')
      else match split_once sep s' with
           | Some (a, b) => Some (c :: a, b)
           | None => None
           end
  end.

(** ** Regular expressions

    The fragment of [re] the detector uses: literal characters, character
    sets, counted and [+] repetition of a character set, [\b], concatenation
    and alternation.  A position in the subject is the character before it
    ([None] at the start) together with the text after it. *)

Inductive regex : Type :=
| Bnd                                  (* \b *)
| Chr (c : ascii)                      (* a literal character *)
| Cls (f : ascii -> bool)              (* one character of a set *)
| Rep (n : nat) (f : ascii -> bool)    (* set{n} *)
| Plus (f : ascii -> bool)             (* set+ , greedy *)
| Seq (r1 r2 : regex)
| Alt (r1 r2 : regex).

Definition word_before (prev : option ascii) : bool :=
  match prev with Some c => is_word c | None => false end.

Definition word_after (s : text) : bool :=
  match s with c :: _ => is_word c | [] => false end.

(** [\b] holds where exactly one side is a word character. *)
Definition at_boundary (prev : option ascii) (s : text) : bool :=
  xorb (word_before prev) (word_after s).

Definition cont := option ascii -> text -> option text.

Fixpoint rep_m (n : nat) (f : ascii -> bool) (prev : option ascii) (s : text)
  (k : cont) : option text :=
  match n with
  | O => k prev s
  | S n' =>
      match s with
      | c :: s' => if f c then rep_m n' f (Some c) s' k else None
      | [] => None
      end
  end.

(** Greedy: the longer repetition is tried first, then the continuation. *)
Fixpoint plus_m (f : ascii -> bool) (s : text) (k : cont) : option text :=
  match s with
  | c :: s' =>
      if f c
      then match plus_m f s' k with
           | Some r => Some r
           | None => k (Some c) s'
           end
      else None
  | [] => None
  end.

(** Backtracking matcher in continuation-passing style: [rmatch r prev s k]
    matches [r] at the position ([prev], [s]) and hands the position after
    the match to [k]; the result is the text left after the whole match. *)
Fixpoint rmatch (r : regex) (prev : option ascii) (s : text) (k : cont)
  : option text :=
  match r with
  | Bnd => if at_boundary prev s then k prev s else None
  | Chr c =>
      match s with
      | d :: s' => if Ascii.eqb d c then k (Some d) s' else None
      | [] => None
      end
  | Cls f =>
      match s with
      | d :: s' => if f d then k (Some d) s' else None
      | [] => None
      end
  | Rep n f => rep_m n f prev s k
  | Plus f => plus_m f s k
  | Seq r1 r2 => rmatch r1 prev s (fun p' s' => rmatch r2 p' s' k)
  | Alt r1 r2 =>
      match rmatch r1 prev s k with
      | Some x => Some x
      | None => rmatch r2 prev s k
      end
  end.

(** A match of [r] starting at the position ([prev], [s]): the text left
    after it. *)
Definition match_at (r : regex) (prev : option ascii) (s : text) : option text :=
  rmatch r prev s (fun _ rest => Some rest).

(** [pattern.search]: the leftmost position where [r] matches; the result is
    the matched text ([match.group()]). *)
Fixpoint search_from (r : regex) (prev : option ascii) (s : text) : option text :=
  match match_at r prev s with
  | Some rest => Some (firstn (length s - length rest) s)
  | None =>
      match s with
      | [] => None
      | c :: s' => search_from r (Some c) s'
      end
  end.

Definition search (r : regex) (s : text) : option text := search_from r None s.

(** Truth value of a match object. *)
Definition found (m : option text) : bool :=
  match m with Some _ => true | None => false end.

(** [\b\d{n}\b] *)
Definition digit_token (n : nat) : regex := Seq Bnd (Seq (Rep n is_digit) Bnd).

(** ** The compiled patterns of [PIIDetector.__init__] *)

Definition phone_pattern : regex := digit_token 10.
Definition aadhar_pattern : regex := digit_token 12.
Definition passport_pattern : regex :=
  Seq Bnd (Seq (Rep 1 is_upper) (Seq (Rep 7 is_digit) Bnd)).
Definition upi_pattern : regex :=
  Alt (Seq Bnd (Seq (Plus is_handle) (Seq (Chr "@") (Seq (Plus is_handle)
         (Seq (Chr ".") (Seq (Plus is_word) Bnd))))))
      (Seq Bnd (Seq (Rep 10 is_digit) (Seq (Chr "@") (Seq (Plus is_word) Bnd)))).
(** The pattern [\b\d{6}\b] of the address rule. *)
Definition pin_pattern : regex := digit_token 6.

(** ** Values decoded from JSON

    What [json.loads] can return.  A float is carried with the text that
    [str] gives for it: the engine only stringifies floats and passes them
    through.  A [dict] keeps its insertion order and has no repeated key. *)

#[warnings="-register-all"]
Inductive jvalue : Type :=
| VNone
| VBool (b : bool)
| VInt (z : Z)
| VFloat (shown : text)
| VStr (s : text)
| VList (items : list jvalue)
| VDict (items : list (text * jvalue)).

Definition dict := list (text * jvalue).

Definition keys (d : dict) : list text := map fst d.

(** The invariant of a Python [dict]: no key occurs twice. *)
Definition wf_dict (d : dict) : Prop := NoDup (keys d).

Fixpoint dict_get (d : dict) (key : text) : option jvalue :=
  match d with
  | [] => None
  | (k, x) :: d' => if text_eqb k key then Some x else dict_get d' key
  end.

(** [d[key] = v]: an existing key keeps its place, a new key goes last. *)
Fixpoint dict_set (d : dict) (key : text) (v : jvalue) : dict :=
  match d with
  | [] => [(key, v)]
  | (k, x) :: d' =>
      if text_eqb k key then (k, v) :: d' else (k, x) :: dict_set d' key v
  end.

Definition is_str (v : jvalue) : bool :=
  match v with VStr _ => true | _ => false end.

(** *** [str(value)] *)

Definition show_int (z : Z) : text :=
  list_ascii_of_string (NilZero.string_of_int (Z.to_int z)).

Definition hex_digit (n : nat) : ascii := nth n (T "0123456789abcdef") "0".

(** [repr] of one character of a string quoted with [q]. *)
Definition repr_char (q c : ascii) : text :=
  if Ascii.eqb c q || Ascii.eqb c "\" then ["\"; c]
  else if Ascii.eqb c "009" then T "\t"
  else if Ascii.eqb c "010" then T "\n"
  else if Ascii.eqb c "013" then T "\r"
  else if (code c <? 32)%nat || in_range 127 160 c || in_range 173 173 c
       then ["\"; "x"; hex_digit (code c / 16); hex_digit (code c mod 16)]
  else [c].

(** [repr] of a string: double quotes when it holds a single quote and no
    double quote, single quotes otherwise. *)
Definition repr_text (s : text) : text :=
  let q := if contains_char "'" s && negb (contains_char "034" s)
           then "034" else "'" in
  q :: flat_map (repr_char q) s ++ [q].

Fixpoint join (sep : text) (l : list text) : text :=
  match l with
  | [] => []
  | [x] => x
  | x :: l' => x ++ sep ++ join sep l'
  end.

Fixpoint py_repr (v : jvalue) : text :=
  match v with
  | VNone => T "None"
  | VBool true => T "True"
  | VBool false => T "False"
  | VInt z => show_int z
  | VFloat shown => shown
  | VStr s => repr_text s
  | VList items => T "[" ++ join (T ", ") (map py_repr items) ++ T "]"
  | VDict items =>
      T "{" ++
      join (T ", ")
        (map (fun kv => repr_text (fst kv) ++ T ": " ++ py_repr (snd kv)) items)
      ++ T "}"
  end.

Definition py_str (v : jvalue) : text :=
  match v with
  | VStr s => s
  | _ => py_repr v
  end.

(** ** Exceptions *)

Inductive exn : Type := IndexError | ValueError | AttributeError.

Inductive result (A : Type) : Type :=
| Ok (a : A)
| Raise (e : exn).

Arguments Ok {A} a.
Arguments Raise {A} e.

Definition bind {A B : Type} (m : result A) (f : A -> result B) : result B :=
  match m with
  | Ok a => f a
  | Raise e => Raise e
  end.

Notation "x <- m ;; f" := (bind m (fun x => f))
  (at level 61, m at next level, right associativity).

(** [l[0]] *)
Definition first_item {A : Type} (l : list A) : result A :=
  match l with
  | x :: _ => Ok x
  | [] => Raise IndexError
  end.

(** [l[-1]] *)
Fixpoint last_item {A : Type} (l : list A) : result A :=
  match l with
  | [] => Raise IndexError
  | [x] => Ok x
  | _ :: l' => last_item l'
  end.

(** [a, b = s.split(sep, 1)] *)
Definition unpack_split (sep : ascii) (s : text) : result (text * text) :=
  match split_once sep s with
  | Some p => Ok p
  | None => Raise ValueError
  end.

(** ** [detect_standalone_pii] *)

Definition detect_standalone_pii (value : jvalue) : bool :=
  match value with
  | VStr s =>
      found (search phone_pattern s) ||
      found (search aadhar_pattern s) ||
      found (search passport_pattern s) ||
      found (search upi_pattern s)
  | _ => false
  end.

(** ** [detect_combinatorial_pii] *)

Record flags : Type := mkFlags {
  flag_name : bool;
  flag_email : bool;
  flag_address : bool;
  flag_device_ip : bool
}.

Definition no_flags : flags := mkFlags false false false false.

Definition address_terms : list text :=
  [T "road"; T "street"; T "lane"; T "avenue"; T "nagar"].

Definition device_keys : list text := [T "device_id"; T "ip_address"].

(** [key in l] *)
Definition key_in (key : text) (l : list text) : bool :=
  existsb (text_eqb key) l.

(** One iteration of the loop over [data.items()]. *)
Definition flag_step (fl : flags) (item : text * jvalue) : flags :=
  let (key, value) := item in
  match value with
  | VStr s =>
      let fl1 :=
        if text_eqb key (T "name") && contains_char " " s
           && (2 <=? length (split_ws s))%nat
        then mkFlags true (flag_email fl) (flag_address fl) (flag_device_ip fl)
        else fl in
      let fl2 :=
        if text_eqb key (T "email") && contains_char "@" s
        then mkFlags (flag_name fl1) true (flag_address fl1) (flag_device_ip fl1)
        else fl1 in
      let fl3 :=
        if text_eqb key (T "address")
           && existsb (fun term => contains term (lower s)) address_terms
        then mkFlags (flag_name fl2) (flag_email fl2) true (flag_device_ip fl2)
        else fl2 in
      if key_in key device_keys
      then mkFlags (flag_name fl3) (flag_email fl3) (flag_address fl3) true
      else fl3
  | _ => fl
  end.

Definition combinatorial_flags (data : dict) : flags :=
  fold_left flag_step data no_flags.

(** [sum(combinatorial_flags.values())] *)
Definition flag_count (fl : flags) : nat :=
  Nat.b2n (flag_name fl) + Nat.b2n (flag_email fl)
  + Nat.b2n (flag_address fl) + Nat.b2n (flag_device_ip fl).

Definition detect_combinatorial_pii (data : dict) : bool :=
  (2 <=? flag_count (combinatorial_flags data))%nat.

(** ** [redact_value] *)

Definition redacted_address : text := T "[REDACTED_ADDRESS]".

Definition redact_value (key : text) (value : jvalue) : result jvalue :=
  match value with
  | VStr s =>
      if text_eqb key (T "phone") && found (search phone_pattern s) then
        Ok (VStr (slice_to 2 s ++ T "XXXXXX" ++ slice_last 2 s))
      else if text_eqb key (T "aadhar") && found (search aadhar_pattern s) then
        Ok (VStr (T "XXXX XXXX " ++ slice_last 4 s))
      else if text_eqb key (T "passport") && found (search passport_pattern s) then
        c <- first_item s ;;
        Ok (VStr (c :: T "XXXXXXX"))
      else if text_eqb key (T "upi_id") && found (search upi_pattern s) then
        if contains_char "@" s then
          p <- unpack_split "@" s ;;
          Ok (VStr (slice_to 2 (fst p) ++ T "XXX@" ++ snd p))
        else
          Ok (VStr (slice_to 2 s ++ T "XXXXXX" ++ slice_last 4 s))
      else if text_eqb key (T "name") && contains_char " " s then
        let parts := split_ws s in
        head <- first_item parts ;;
        a <- first_item head ;;
        tail <- last_item parts ;;
        b <- first_item tail ;;
        Ok (VStr (a :: T "XXX " ++ b :: T "XXX"))
      else if text_eqb key (T "email") && contains_char "@" s then
        p <- unpack_split "@" s ;;
        Ok (VStr (slice_to 2 (fst p) ++ T "XXX@" ++ snd p))
      else if text_eqb key (T "address") then
        match search pin_pattern s with
        | Some pin => Ok (VStr (redacted_address ++ T ", " ++ pin))
        | None => Ok (VStr redacted_address)
        end
      else Ok value
  | _ => Ok value
  end.

(** ** [process_record] *)

(** The two functions of module [json] the orchestrator calls.  [json_loads]
    answers [None] where [json.loads] raises [json.JSONDecodeError].  Limits
    of the interpreter (recursion depth, number of digits of an integer) are
    left out. *)
Record json_module : Type := mkJson {
  json_loads : text -> option jvalue;
  json_dumps : jvalue -> text
}.

(** The first loop: every field is tested on its stringified value. *)
Fixpoint scan_fields (items : dict) (has_pii : bool) (redacted_data : dict)
  : result (bool * dict) :=
  match items with
  | [] => Ok (has_pii, redacted_data)
  | (key, value) :: rest =>
      if detect_standalone_pii (VStr (py_str value)) then
        v <- redact_value key value ;;
        scan_fields rest true (dict_set redacted_data key v)
      else scan_fields rest has_pii (dict_set redacted_data key value)
  end.

Definition quasi_keys : list text :=
  [T "name"; T "email"; T "address"; T "device_id"; T "ip_address"].

(** The second loop runs over the items of [redacted_data] while it assigns
    to it: each position is read from the dictionary as it stands when the
    loop reaches it. *)
Fixpoint reredact (positions : list nat) (redacted_data : dict) : result dict :=
  match positions with
  | [] => Ok redacted_data
  | i :: rest =>
      match nth_error redacted_data i with
      | Some (key, value) =>
          if key_in key quasi_keys then
            v <- redact_value key value ;;
            reredact rest (dict_set redacted_data key v)
          else reredact rest redacted_data
      | None => Ok redacted_data
      end
  end.

(** Lines 77 to 92: the mapping that is re-encoded, and the flag. *)
Definition process_fields (data : dict) : result (dict * bool) :=
  st <- scan_fields data false [] ;;
  let (has_pii, redacted_data) := st in
  if negb has_pii && detect_combinatorial_pii data then
    rd <- reredact (seq 0 (length redacted_data)) redacted_data ;;
    Ok (rd, true)
  else Ok (redacted_data, has_pii).

(** A decoded value that is not a [dict] has no [items] method. *)
Definition process_record (J : json_module) (record_id : Z) (data_json : text)
  : result (text * bool) :=
  match json_loads J data_json with
  | None => Ok (data_json, false)
  | Some (VDict data) =>
      r <- process_fields data ;;
      Ok (json_dumps J (VDict (fst r)), snd r)
  | Some _ => Raise AttributeError
  end.

(** ** A [json] module for the examples

    Sample payloads are written with a single quote where JSON has a double
    quote. *)

Definition dq (s : text) : text :=
  map (fun c => if Ascii.eqb c "'" then "034" else c) s.

(** [json.dumps] of one character of a string. *)
Definition dumps_char (c : ascii) : text :=
  if Ascii.eqb c "034" then ["\"; c]
  else if Ascii.eqb c "\" then ["\"; c]
  else if Ascii.eqb c "010" then T "\n"
  else if Ascii.eqb c "013" then T "\r"
  else if Ascii.eqb c "009" then T "\t"
  else if Ascii.eqb c "008" then T "\b"
  else if Ascii.eqb c "012" then T "\f"
  else if (code c <? 32)%nat || (126 <? code c)%nat
       then T "\u00" ++ [hex_digit (code c / 16); hex_digit (code c mod 16)]
  else [c].

Definition dumps_text (s : text) : text :=
  "034" :: flat_map dumps_char s ++ ["034"].

(** [json.dumps] of a float shown as [shown]: the three special values
    have their own spelling. *)
Definition dumps_float (shown : text) : text :=
  if text_eqb shown (T "nan") then T "NaN"
  else if text_eqb shown (T "inf") then T "Infinity"
  else if text_eqb shown (T "-inf") then T "-Infinity"
  else shown.

(** [json.dumps] with its default separators. *)
Fixpoint dumps (v : jvalue) : text :=
  match v with
  | VNone => T "null"
  | VBool true => T "true"
  | VBool false => T "false"
  | VInt z => show_int z
  | VFloat shown => dumps_float shown
  | VStr s => dumps_text s
  | VList items => T "[" ++ join (T ", ") (map dumps items) ++ T "]"
  | VDict items =>
      T "{" ++
      join (T ", ")
        (map (fun kv => dumps_text (fst kv) ++ T ": " ++ dumps (snd kv)) items)
      ++ T "}"
  end.

Definition sample_payloads : list (text * jvalue) :=
  [ (dq (T "{'phone': '9876543210', 'city': 'Pune'}"),
     VDict [(T "phone", VStr (T "9876543210")); (T "city", VStr (T "Pune"))]);
    (dq (T "{'name': 'Jane Doe', 'email': 'jane@x.com'}"),
     VDict [(T "name", VStr (T "Jane Doe")); (T "email", VStr (T "jane@x.com"))]);
    (dq (T "{'name': ' ', 'email': 'a@b', 'device_id': 'd1'}"),
     VDict [(T "name", VStr (T " ")); (T "email", VStr (T "a@b"));
            (T "device_id", VStr (T "d1"))]);
    (dq (T "{'order': 9876543210, 'city': 'Pune'}"),
     VDict [(T "order", VInt 9876543210); (T "city", VStr (T "Pune"))]);
    (dq (T "[1, 2]"), VList [VInt 1; VInt 2]);
    (dq (T "'9876543210'"), VStr (T "9876543210"));
    (dq (T "42"), VInt 42);
    (dq (T "null"), VNone) ].

(** [json.loads] on the sample payloads.  Any other text is answered as a
    malformed payload is: the table stands for [json.loads] on the samples
    and on malformed text only. *)
Definition sample_loads (s : text) : option jvalue :=
  match find (fun p => text_eqb (fst p) s) sample_payloads with
  | Some p => Some (snd p)
  | None => None
  end.

Definition sample_json : json_module := mkJson sample_loads dumps.

(** ** Notions used to state the properties *)

(** The character before the position reached after reading [w] from a
    position whose previous character is [prev]. *)
Fixpoint end_prev (prev : option ascii) (w : text) : option ascii :=
  match w with
  | [] => prev
  | c :: w' => end_prev (Some c) w'
  end.

(** What it means for [r] to match exactly the text [w], at a position whose
    previous character is [prev] and where [w] is followed by [rest]. *)
Fixpoint matches (r : regex) (prev : option ascii) (w rest : text) : Prop :=
  match r with
  | Bnd => w = [] /\ at_boundary prev rest = true
  | Chr c => w = [c]
  | Cls f => exists d, w = [d] /\ f d = true
  | Rep n f => length w = n /\ forallb f w = true
  | Plus f => w <> [] /\ forallb f w = true
  | Seq r1 r2 =>
      exists w1 w2, w = w1 ++ w2 /\
        matches r1 prev w1 (w2 ++ rest) /\
        matches r2 (end_prev prev w1) w2 rest
  | Alt r1 r2 => matches r1 prev w rest \/ matches r2 prev w rest
  end.

(** [s] contains a run of exactly [n] decimal digits with no word character
    next to it on either side. *)
Definition word_bounded_run (n : nat) (s : text) : Prop :=
  exists pre ds post,
    s = pre ++ ds ++ post /\
    length ds = n /\ forallb is_digit ds = true /\
    word_before (end_prev None pre) = false /\
    word_after post = false.

(** The four flags of [detect_combinatorial_pii] in closed form: what the
    loop leaves in each flag, as a test on the items of the mapping.  They
    follow the loop, its string guard included, and serve the proofs. *)
Definition item_holds (key : text) (p : text -> bool) (item : text * jvalue)
  : bool :=
  text_eqb (fst item) key &&
  match snd item with VStr s => p s | _ => false end.

(** Some field named [key] holds a string that satisfies [p]. *)
Definition holds (data : dict) (key : text) (p : text -> bool) : bool :=
  existsb (item_holds key p) data.

(** The test of the name rule: a space, and two or more tokens. *)
Definition name_test (s : text) : bool :=
  contains_char " " s && (2 <=? length (split_ws s))%nat.

(** The test of the address rule: a street term in the lowercased text. *)
Definition address_test (s : text) : bool :=
  existsb (fun term => contains term (lower s)) address_terms.

Definition any_text (s : text) : bool := true.

Definition flag_name_of (data : dict) : bool :=
  holds data (T "name") name_test.

Definition flag_email_of (data : dict) : bool :=
  holds data (T "email") (contains_char "@").

Definition flag_address_of (data : dict) : bool :=
  holds data (T "address") address_test.

Definition flag_device_ip_of (data : dict) : bool :=
  holds data (T "device_id") any_text || holds data (T "ip_address") any_text.

Definition flag_count_of (data : dict) : nat :=
  Nat.b2n (flag_name_of data) + Nat.b2n (flag_email_of data)
  + Nat.b2n (flag_address_of data) + Nat.b2n (flag_device_ip_of data).

(** The signals of the combinatorial rule as the specification words
    them. *)

(** Splitting [s] on whitespace yields two or more tokens: two characters
    that are not whitespace with a whitespace character between them. *)
Definition two_tokens (s : text) : Prop :=
  exists x a y w z b u,
    s = x ++ a :: y ++ w :: z ++ b :: u /\
    is_space a = false /\ is_space w = true /\ is_space b = false.

(** The field [name] holds a string that contains a space and has two or
    more tokens. *)
Definition name_signal (data : dict) : Prop :=
  exists s, In (T "name", VStr s) data /\ In " "%char s /\ two_tokens s.

(** The field [email] holds a string that contains ['@']. *)
Definition email_signal (data : dict) : Prop :=
  exists s, In (T "email", VStr s) data /\ In "@"%char s.

(** The field [address] holds a string whose lowercased form contains one
    of the street terms. *)
Definition address_signal (data : dict) : Prop :=
  exists s term pre post,
    In (T "address", VStr s) data /\ In term address_terms /\
    lower s = pre ++ term ++ post.

(** The [device_ip] signal by presence of the key alone. *)
Definition device_ip_key_present (data : dict) : Prop :=
  exists key v, In (key, v) data /\
                (key = T "device_id" \/ key = T "ip_address").

(** The [device_ip] signal of a key that holds a string. *)
Definition device_ip_string_signal (data : dict) : Prop :=
  exists key s, In (key, VStr s) data /\
                (key = T "device_id" \/ key = T "ip_address").

Definition at_least_two (P1 P2 P3 P4 : Prop) : Prop :=
  (P1 /\ P2) \/ (P1 /\ P3) \/ (P1 /\ P4) \/
  (P2 /\ P3) \/ (P2 /\ P4) \/ (P3 /\ P4).

(** A field [name] holding a string with a space and no token: the input on
    which the name rule of [redact_value] indexes an empty list. *)
Definition blank_name (data : dict) : bool :=
  holds data (T "name")
    (fun s => contains_char " " s && forallb is_space s).

(** A field whose stringified value matches a standalone pattern. *)
Definition standalone_hit (item : text * jvalue) : bool :=
  detect_standalone_pii (VStr (py_str (snd item))).

(** What the first loop stores for a field: the redacted value on a hit,
    the value itself otherwise. *)
Definition scan_item (item : text * jvalue) : text * jvalue :=
  (fst item,
   if standalone_hit item
   then match redact_value (fst item) (snd item) with
        | Ok v => v
        | Raise _ => snd item
        end
   else snd item).

(** The field names that have a masking rule in [redact_value]. *)
Definition rule_keys : list text :=
  [T "phone"; T "aadhar"; T "passport"; T "upi_id"; T "name"; T "email";
   T "address"].

(** What the second loop stores for a field: the redacted value under one
    of the five quasi-identifier names, the value itself otherwise. *)
Definition requasi_item (item : text * jvalue) : text * jvalue :=
  (fst item,
   if key_in (fst item) quasi_keys
   then match redact_value (fst item) (snd item) with
        | Ok v => v
        | Raise _ => snd item
        end
   else snd item).

(** [s] contains an uppercase letter followed by exactly seven digits, with
    no word character next to the token on either side. *)
Definition passport_token (s : text) : Prop :=
  exists pre u ds post,
    s = pre ++ u :: ds ++ post /\
    is_upper u = true /\
    length ds = 7 /\ forallb is_digit ds = true /\
    word_before (end_prev None pre) = false /\
    word_after post = false.

(** [s] is, as a whole, of the shape [local@domain.tld]: a local part that
    starts with a word character, a domain and a last label of word
    characters. *)
Definition email_shaped (s : text) : Prop :=
  exists a u d t,
    s = a :: u ++ "@"%char :: d ++ "."%char :: t /\
    is_word a = true /\ forallb is_handle u = true /\
    d <> [] /\ forallb is_handle d = true /\
    t <> [] /\ forallb is_word t = true.

(** ** The row loop of [main]

    The loop over [csv.DictReader] rows, for an input whose header has the
    columns [record_id] and [data_json] and whose rows are complete.  Reading
    the arguments, opening the files and the CSV syntax are left out; [int]
    is a parameter, answering [Raise ValueError] where Python's [int] does.
    The result is the list of rows handed to [writer.writerow], in order,
    and the exception that ended the loop, if any. *)

Record row : Type := mkRow {
  row_record_id : text;
  row_data_json : text
}.

Record out_row : Type := mkOut {
  out_record_id : Z;
  out_redacted_data_json : text;
  out_is_pii : bool
}.

Fixpoint write_rows (to_int : text -> result Z) (J : json_module)
  (rows : list row) (written : list out_row) : list out_row * option exn :=
  match rows with
  | [] => (written, None)
  | r :: rest =>
      match to_int (row_record_id r) with
      | Raise e => (written, Some e)
      | Ok record_id =>
          match process_record J record_id (row_data_json r) with
          | Raise e => (written, Some e)
          | Ok (redacted_json, is_pii) =>
              if is_pii
              then write_rows to_int J rest
                     (written ++ [mkOut record_id redacted_json true])
              else write_rows to_int J rest written
          end
      end
  end.

Definition main_loop (to_int : text -> result Z) (J : json_module)
  (rows : list row) : list out_row * option exn :=
  write_rows to_int J rows [].

(** [int] on the record ids of the examples: a plain run of decimal
    digits. *)
Fixpoint digits_value (acc : Z) (s : text) : result Z :=
  match s with
  | [] => Ok acc
  | c :: s' =>
      if is_digit c
      then digits_value (10 * acc + Z.of_nat (code c - 48)) s'
      else Raise ValueError
  end.

Definition sample_int (s : text) : result Z :=
  match s with
  | [] => Raise ValueError
  | _ => digits_value 0 s
  end.

(** ** Valid JSON

    The grammar of RFC 8259 as a recognizer: [json_scan] reads one value, the
    rest of the members of an object or the rest of the elements of an array,
    and answers the text left.  [fuel] bounds the depth of the calls; twice
    the length of the text is enough. *)

Definition is_json_ws (c : ascii) : bool :=
  Ascii.eqb c " " || Ascii.eqb c "009" || Ascii.eqb c "010" || Ascii.eqb c "013".

Fixpoint skip_ws (s : text) : text :=
  match s with
  | c :: r => if is_json_ws c then skip_ws r else s
  | [] => []
  end.

Fixpoint skip_digits (s : text) : text :=
  match s with
  | c :: r => if is_digit c then skip_digits r else s
  | [] => []
  end.

Definition is_hex (c : ascii) : bool :=
  is_digit c || in_range 65 70 c || in_range 97 102 c.

(** A string, after its opening quotation mark. *)
Fixpoint json_string_tail (s : text) : option text :=
  match s with
  | [] => None
  | c :: r =>
      if Ascii.eqb c "034" then Some r
      else if Ascii.eqb c "\" then
        match r with
        | e :: r' =>
            if contains_char e (T "\/bfnrt") || Ascii.eqb e "034"
            then json_string_tail r'
            else if Ascii.eqb e "u" then
              match r' with
              | h1 :: h2 :: h3 :: h4 :: r'' =>
                  if is_hex h1 && is_hex h2 && is_hex h3 && is_hex h4
                  then json_string_tail r''
                  else None
              | _ => None
              end
            else None
        | [] => None
        end
      else if (code c <? 32)%nat then None
      else json_string_tail r
  end.

(** One or more digits. *)
Definition json_digits (s : text) : option text :=
  match s with
  | c :: r => if is_digit c then Some (skip_digits r) else None
  | [] => None
  end.

(** The optional exponent of a number. *)
Definition json_exp (s : text) : option text :=
  match s with
  | c :: r =>
      if Ascii.eqb c "e" || Ascii.eqb c "E" then
        match r with
        | d :: r' =>
            if Ascii.eqb d "+" || Ascii.eqb d "-" then json_digits r'
            else json_digits r
        | [] => None
        end
      else Some s
  | [] => Some s
  end.

(** The optional fraction and exponent of a number. *)
Definition json_frac_exp (s : text) : option text :=
  match s with
  | c :: r =>
      if Ascii.eqb c "." then
        match json_digits r with
        | Some r' => json_exp r'
        | None => None
        end
      else json_exp s
  | [] => Some s
  end.

(** A number after its optional minus sign: a zero or a digit from 1 to 9
    followed by digits, then the fraction and the exponent. *)
Definition json_int (s : text) : option text :=
  match s with
  | c :: r =>
      if Ascii.eqb c "0" then json_frac_exp r
      else if is_digit c then json_frac_exp (skip_digits r)
      else None
  | [] => None
  end.

Definition json_number (s : text) : option text :=
  match s with
  | c :: r => if Ascii.eqb c "-" then json_int r else json_int s
  | [] => None
  end.

(** [s] with the literal [lit] taken off its front. *)
Fixpoint strip_prefix (lit s : text) : option text :=
  match lit, s with
  | [], _ => Some s
  | a :: lit', b :: s' => if Ascii.eqb a b then strip_prefix lit' s' else None
  | _ :: _, [] => None
  end.

Inductive json_part : Type := JValue | JMembers | JElements.

Fixpoint json_scan (fuel : nat) (part : json_part) (s : text) : option text :=
  match fuel with
  | O => None
  | S fuel' =>
      match part with
      | JValue =>
          match s with
          | [] => None
          | c :: r =>
              if Ascii.eqb c "{" then
                match skip_ws r with
                | d :: r' =>
                    if Ascii.eqb d "}" then Some r'
                    else json_scan fuel' JMembers (d :: r')
                | [] => None
                end
              else if Ascii.eqb c "[" then
                match skip_ws r with
                | d :: r' =>
                    if Ascii.eqb d "]" then Some r'
                    else json_scan fuel' JElements (d :: r')
                | [] => None
                end
              else if Ascii.eqb c "034" then json_string_tail r
              else if Ascii.eqb c "t" then strip_prefix (T "true") s
              else if Ascii.eqb c "f" then strip_prefix (T "false") s
              else if Ascii.eqb c "n" then strip_prefix (T "null") s
              else json_number s
          end
      | JMembers =>
          match s with
          | c :: r =>
              if Ascii.eqb c "034" then
                match json_string_tail r with
                | Some r1 =>
                    match skip_ws r1 with
                    | d :: r2 =>
                        if Ascii.eqb d ":" then
                          match json_scan fuel' JValue (skip_ws r2) with
                          | Some r3 =>
                              match skip_ws r3 with
                              | e :: r4 =>
                                  if Ascii.eqb e "," then
                                    json_scan fuel' JMembers (skip_ws r4)
                                  else if Ascii.eqb e "}" then Some r4
                                  else None
                              | [] => None
                              end
                          | None => None
                          end
                        else None
                    | [] => None
                    end
                | None => None
                end
              else None
          | [] => None
          end
      | JElements =>
          match json_scan fuel' JValue s with
          | Some r1 =>
              match skip_ws r1 with
              | e :: r2 =>
                  if Ascii.eqb e "," then json_scan fuel' JElements (skip_ws r2)
                  else if Ascii.eqb e "]" then Some r2
                  else None
              | [] => None
              end
          | None => None
          end
      end
  end.

(** [s] is a JSON text: optional whitespace, one value, optional
    whitespace. *)
Definition valid_json (s : text) : bool :=
  match json_scan (2 * length s + 2) JValue (skip_ws s) with
  | Some r => match skip_ws r with [] => true | _ :: _ => false end
  | None => false
  end.

(** A payload that [json.loads] accepts although it is not valid JSON: the
    decoder reads [NaN] as the float nan. *)
Definition lenient_payloads : list (text * jvalue) :=
  [ (dq (T "{'x':NaN}"), VDict [(T "x", VFloat (T "nan"))]) ].

Definition lenient_loads (s : text) : option jvalue :=
  match find (fun p => text_eqb (fst p) s) (sample_payloads ++ lenient_payloads) with
  | Some p => Some (snd p)
  | None => None
  end.

Definition lenient_json : json_module := mkJson lenient_loads dumps.

(** Further sample payloads, and a [json] module that knows them too. *)
Definition more_payloads : list (text * jvalue) :=
  [ (dq (T "{'name': 'Jane Doe', 'address': '12 MG Road'}"),
     VDict [(T "name", VStr (T "Jane Doe"));
            (T "address", VStr (T "12 MG Road"))]);
    (dq (T "{'contact': '9876543210'}"),
     VDict [(T "contact", VStr (T "9876543210"))]) ].

Definition more_loads (s : text) : option jvalue :=
  match find (fun p => text_eqb (fst p) s) (sample_payloads ++ more_payloads) with
  | Some p => Some (snd p)
  | None => None
  end.

Definition more_json : json_module := mkJson more_loads dumps.

(** A written row is the flagged result of processing one input row. *)
Definition comes_from (to_int : text -> result Z) (J : json_module)
  (rows : list row) (w : out_row) : Prop :=
  out_is_pii w = true /\
  exists r, In r rows /\
    to_int (row_record_id r) = Ok (out_record_id w) /\
    process_record J (out_record_id w) (row_data_json r)
      = Ok (out_redacted_data_json w, true).

(** * Properties *)

(** ** Text *)

Lemma text_eqb_eq (a b : text) : text_eqb a b = true <-> a = b.
Proof.
  revert b. induction a as [|x a IH]; intros [|y b]; simpl;
    try (split; [discriminate | discriminate]); [tauto|].
  rewrite andb_true_iff, Ascii.eqb_eq, IH. split.
  - intros [-> ->]. reflexivity.
  - intros E. inversion E. auto.
Qed.

Lemma text_eqb_refl (a : text) : text_eqb a a = true.
Proof. now apply text_eqb_eq. Qed.

Lemma contains_char_In (c : ascii) (s : text) :
  contains_char c s = true <-> In c s.
Proof.
  unfold contains_char. rewrite existsb_exists. split.
  - intros (d & Hd & E). apply Ascii.eqb_eq in E. now subst.
  - intros H. exists c. split; [assumption | apply Ascii.eqb_refl].
Qed.

Lemma end_prev_app (p : option ascii) (a b : text) :
  end_prev p (a ++ b) = end_prev (end_prev p a) b.
Proof. revert p. induction a as [|c a IH]; intros p; simpl; auto. Qed.

Lemma end_prev_cons_some (p : option ascii) (c : ascii) (w : text) :
  exists d, end_prev p (c :: w) = Some d /\ In d (c :: w).
Proof.
  revert p c. induction w as [|e w IH]; intros p c; simpl.
  - exists c. auto.
  - destruct (IH (Some c) e) as (d & E & Hin). exists d. simpl in *. auto.
Qed.

(** ** The matcher against its meaning *)

Lemma rep_m_sound (n : nat) (f : ascii -> bool) :
  forall p s k x, rep_m n f p s k = Some x ->
  exists w rest, s = w ++ rest /\ length w = n /\ forallb f w = true /\
                 k (end_prev p w) rest = Some x.
Proof.
  induction n as [|n IH]; intros p s k x H; simpl in H.
  - exists [], s. simpl. auto.
  - destruct s as [|c s]; [discriminate|].
    destruct (f c) eqn:Fc; [|discriminate].
    destruct (IH _ _ _ _ H) as (w & rest & -> & L & A & K).
    exists (c :: w), rest. simpl. rewrite Fc, L, A. auto.
Qed.

Lemma rep_m_complete (f : ascii -> bool) :
  forall w p rest (k : cont), forallb f w = true ->
  rep_m (length w) f p (w ++ rest) k = k (end_prev p w) rest.
Proof.
  induction w as [|c w IH]; intros p rest k A; simpl in *; [reflexivity|].
  apply andb_true_iff in A as [Fc A]. rewrite Fc. now apply IH.
Qed.

Lemma plus_m_sound (f : ascii -> bool) :
  forall s k x, plus_m f s k = Some x ->
  exists w rest, s = w ++ rest /\ w <> [] /\ forallb f w = true /\
                 k (end_prev None w) rest = Some x.
Proof.
  induction s as [|c s IH]; intros k x H; simpl in H; [discriminate|].
  destruct (f c) eqn:Fc; [|discriminate].
  destruct (plus_m f s k) as [r|] eqn:E.
  - destruct (IH _ _ E) as (w & rest & -> & N & A & K).
    exists (c :: w), rest. simpl. rewrite Fc, A.
    repeat split; try discriminate.
    destruct w as [|d w]; [congruence|]. simpl in *. congruence.
  - exists [c], s. simpl. rewrite Fc. repeat split; auto; discriminate.
Qed.

Lemma plus_m_complete (f : ascii -> bool) :
  forall w rest (k : cont), w <> [] -> forallb f w = true ->
  k (end_prev None w) rest <> None ->
  plus_m f (w ++ rest) k <> None.
Proof.
  induction w as [|c w IH]; intros rest k N A K; [congruence|].
  simpl in *. apply andb_true_iff in A as [Fc A]. rewrite Fc.
  destruct w as [|d w].
  - simpl in *. destruct (plus_m f rest k); [discriminate | assumption].
  - specialize (IH rest k). simpl in IH.
    destruct (plus_m f ((d :: w) ++ rest) k) eqn:E; [discriminate|].
    exfalso. apply IH; auto; discriminate.
Qed.

Lemma end_prev_nonempty (p q : option ascii) (w : text) :
  w <> [] -> end_prev p w = end_prev q w.
Proof. destruct w; [congruence | reflexivity]. Qed.

Lemma rmatch_sound (r : regex) :
  forall p s k x, rmatch r p s k = Some x ->
  exists w rest, s = w ++ rest /\ matches r p w rest /\
                 k (end_prev p w) rest = Some x.
Proof.
  induction r as [ | c | f | n f | f | r1 IH1 r2 IH2 | r1 IH1 r2 IH2 ];
    intros p s k x H; simpl in H.
  - destruct (at_boundary p s) eqn:B; [|discriminate].
    exists [], s. simpl. auto.
  - destruct s as [|d s]; [discriminate|].
    destruct (Ascii.eqb d c) eqn:E; [|discriminate].
    apply Ascii.eqb_eq in E. subst d. exists [c], s. simpl. auto.
  - destruct s as [|d s]; [discriminate|].
    destruct (f d) eqn:E; [|discriminate].
    exists [d], s. simpl. eauto.
  - destruct (rep_m_sound _ _ _ _ _ _ H) as (w & rest & -> & L & A & K).
    exists w, rest. simpl. auto.
  - destruct (plus_m_sound _ _ _ _ H) as (w & rest & -> & N & A & K).
    exists w, rest. simpl. rewrite (end_prev_nonempty p None w N). auto.
  - destruct (IH1 _ _ _ _ H) as (w1 & rest1 & -> & M1 & K1).
    destruct (IH2 _ _ _ _ K1) as (w2 & rest & -> & M2 & K2).
    exists (w1 ++ w2), rest. rewrite <- app_assoc, end_prev_app.
    repeat split; auto. simpl. exists w1, w2. auto.
  - destruct (rmatch r1 p s k) as [y|] eqn:E.
    + destruct (IH1 _ _ _ _ E) as (w & rest & -> & M & K).
      exists w, rest. simpl. repeat split; auto. congruence.
    + destruct (IH2 _ _ _ _ H) as (w & rest & -> & M & K).
      exists w, rest. simpl. auto.
Qed.

Lemma rmatch_complete (r : regex) :
  forall p w rest (k : cont), matches r p w rest ->
  k (end_prev p w) rest <> None ->
  rmatch r p (w ++ rest) k <> None.
Proof.
  induction r as [ | c | f | n f | f | r1 IH1 r2 IH2 | r1 IH1 r2 IH2 ];
    intros p w rest k M K; simpl in M.
  - destruct M as [-> B]. simpl. rewrite B. assumption.
  - subst w. simpl. rewrite Ascii.eqb_refl. assumption.
  - destruct M as (d & -> & Fd). simpl. rewrite Fd. assumption.
  - destruct M as [<- A]. simpl. rewrite rep_m_complete; assumption.
  - destruct M as [N A]. simpl. apply plus_m_complete; auto.
    now rewrite (end_prev_nonempty None p w N).
  - destruct M as (w1 & w2 & -> & M1 & M2). simpl. rewrite <- app_assoc.
    apply IH1; [assumption|]. apply IH2; [assumption|].
    now rewrite <- end_prev_app.
  - simpl. destruct M as [M | M].
    + specialize (IH1 _ _ _ k M K).
      destruct (rmatch r1 p (w ++ rest) k); [discriminate | congruence].
    + specialize (IH2 _ _ _ k M K).
      destruct (rmatch r1 p (w ++ rest) k); [discriminate | assumption].
Qed.

(** ** [search] *)

Lemma firstn_app_exact (w rest : text) :
  firstn (length (w ++ rest) - length rest) (w ++ rest) = w.
Proof.
  rewrite length_app, Nat.add_sub. rewrite firstn_app, Nat.sub_diag.
  simpl. rewrite app_nil_r. apply firstn_all.
Qed.

Lemma match_at_sound (r : regex) (p : option ascii) (s rest : text) :
  match_at r p s = Some rest ->
  exists w, s = w ++ rest /\ matches r p w rest.
Proof.
  unfold match_at. intros H.
  destruct (rmatch_sound _ _ _ _ _ H) as (w & rest' & -> & M & K).
  inversion K; subst. eauto.
Qed.

Lemma search_from_eq (r : regex) (p : option ascii) (s : text) :
  search_from r p s =
  match match_at r p s with
  | Some rest => Some (firstn (length s - length rest) s)
  | None =>
      match s with
      | [] => None
      | c :: s' => search_from r (Some c) s'
      end
  end.
Proof. destruct s; reflexivity. Qed.

Lemma search_from_sound (r : regex) :
  forall s p g, search_from r p s = Some g ->
  exists pre rest, s = pre ++ g ++ rest /\ matches r (end_prev p pre) g rest.
Proof.
  induction s as [|c s IH]; intros p g H; rewrite search_from_eq in H;
    destruct (match_at r p _) as [rest|] eqn:E; try discriminate;
    try (destruct (match_at_sound _ _ _ _ E) as (w & Hw & M);
         rewrite Hw, firstn_app_exact in H; inversion H; subst g;
         exists [], rest; simpl; auto).
  destruct (IH _ _ H) as (pre & rest & -> & M).
  exists (c :: pre), rest. simpl. auto.
Qed.

Lemma search_from_complete (r : regex) :
  forall pre p w rest, matches r (end_prev p pre) w rest ->
  found (search_from r p (pre ++ w ++ rest)) = true.
Proof.
  induction pre as [|c pre IH]; intros p w rest M.
  - simpl in M. simpl app.
    assert (H : match_at r p (w ++ rest) <> None).
    { unfold match_at. apply rmatch_complete; [assumption | discriminate]. }
    destruct (w ++ rest); simpl;
      destruct (match_at r p _); try congruence; reflexivity.
  - simpl. destruct (match_at r p (c :: pre ++ w ++ rest)); [reflexivity|].
    apply IH. assumption.
Qed.

Lemma search_sound (r : regex) (s g : text) :
  search r s = Some g ->
  exists pre rest, s = pre ++ g ++ rest /\ matches r (end_prev None pre) g rest.
Proof. apply search_from_sound. Qed.

Lemma search_complete (r : regex) (pre w rest : text) :
  matches r (end_prev None pre) w rest ->
  found (search r (pre ++ w ++ rest)) = true.
Proof. apply search_from_complete. Qed.

Lemma found_search (r : regex) (s : text) :
  found (search r s) = true ->
  exists pre g rest, s = pre ++ g ++ rest /\ matches r (end_prev None pre) g rest.
Proof.
  destruct (search r s) as [g|] eqn:E; [|discriminate]. intros _.
  destruct (search_sound _ _ _ E) as (pre & rest & H). eauto.
Qed.

(** ** Character classes *)

Ltac each_char c :=
  destruct c as [[|] [|] [|] [|] [|] [|] [|] [|]];
  vm_compute; try reflexivity; try discriminate; auto.

Lemma digit_is_word (c : ascii) : is_digit c = true -> is_word c = true.
Proof. each_char c. Qed.

Lemma digit_not_upper (c : ascii) : is_digit c = true -> is_upper c = false.
Proof. each_char c. Qed.

Lemma digit_not_space (c : ascii) : is_digit c = true -> is_space c = false.
Proof. each_char c. Qed.

Lemma upper_not_space (c : ascii) : is_upper c = true -> is_space c = false.
Proof. each_char c. Qed.

Create HintDb classes.
#[local] Hint Resolve digit_is_word digit_not_space upper_not_space : classes.

(** ** What a match of each pattern looks like *)

Lemma digit_token_matches (n : nat) (p : option ascii) (w rest : text) :
  matches (digit_token n) p w rest <->
  length w = n /\ forallb is_digit w = true /\
  at_boundary p (w ++ rest) = true /\ at_boundary (end_prev p w) rest = true.
Proof.
  simpl. split.
  - intros (w1 & w2 & -> & [-> B1] & w3 & w4 & -> & [L A] & [-> B2]).
    simpl in *. rewrite app_nil_r in *. auto.
  - intros (L & A & B1 & B2).
    exists [], w. simpl. repeat split; auto.
    exists w, []. simpl. rewrite app_nil_r. repeat split; auto.
Qed.

Lemma passport_match_has_upper (p : option ascii) (w rest : text) :
  matches passport_pattern p w rest ->
  exists c, In c w /\ is_upper c = true.
Proof.
  simpl. intros (w1 & w2 & -> & _ & w3 & w4 & -> & [L A] & _).
  destruct w3 as [|c w3]; [discriminate|]. simpl in A.
  apply andb_true_iff in A as [Uc _].
  exists c. split; [|assumption]. apply in_or_app. right. simpl. auto.
Qed.

Lemma upi_match_has_at (p : option ascii) (w rest : text) :
  matches upi_pattern p w rest -> In "@"%char w.
Proof.
  simpl.
  intros [ (w1 & w2 & -> & _ & w3 & w4 & -> & _ & w5 & w6 & -> & -> & _)
         | (w1 & w2 & -> & _ & w3 & w4 & -> & _ & w5 & w6 & -> & -> & _) ];
    apply in_or_app; right; apply in_or_app; right; simpl; auto.
Qed.

Lemma all_digits_app (a b : text) :
  forallb is_digit (a ++ b) = true ->
  forallb is_digit a = true /\ forallb is_digit b = true.
Proof. rewrite forallb_app. apply andb_true_iff. Qed.

Lemma word_before_digits (p : option ascii) (w : text) :
  w <> [] -> forallb is_digit w = true -> word_before (end_prev p w) = true.
Proof.
  intros N A. destruct w as [|c w]; [congruence|].
  destruct (end_prev_cons_some p c w) as (d & -> & Hin).
  simpl. apply digit_is_word. rewrite forallb_forall in A. auto.
Qed.

Lemma word_after_digits (w rest : text) :
  w <> [] -> forallb is_digit w = true -> word_after (w ++ rest) = true.
Proof.
  intros N A. destruct w as [|c w]; [congruence|]. simpl in *.
  apply andb_true_iff in A as [Dc _]. now apply digit_is_word.
Qed.

(** A word-bounded run of [n] digits is found by [\b\d{n}\b]. *)
Lemma run_found (n : nat) (s : text) :
  0 < n -> word_bounded_run n s -> found (search (digit_token n) s) = true.
Proof.
  intros Hn (pre & ds & post & -> & L & A & Hb & Ha).
  assert (N : ds <> []) by (destruct ds; simpl in L; [lia | discriminate]).
  apply search_complete, digit_token_matches.
  repeat split; auto; unfold at_boundary.
  - now rewrite Hb, (word_after_digits ds post N A).
  - now rewrite (word_before_digits _ ds N A), Ha.
Qed.

(** In a text made of digits only, [\b\d{n}\b] can only match the whole
    text. *)
Lemma digits_found_length (n : nat) (s : text) :
  0 < n -> forallb is_digit s = true ->
  found (search (digit_token n) s) = true -> length s = n.
Proof.
  intros Hn A F.
  destruct (found_search _ _ F) as (pre & g & rest & -> & M).
  apply digit_token_matches in M as (L & Ag & B1 & B2).
  apply all_digits_app in A as [Apre A]. apply all_digits_app in A as [_ Arest].
  assert (N : g <> []) by (destruct g; simpl in L; [lia | discriminate]).
  unfold at_boundary in *.
  rewrite (word_after_digits g rest N Ag) in B1.
  rewrite (word_before_digits _ g N Ag) in B2.
  destruct pre as [|c pre].
  - destruct rest as [|d rest].
    + simpl. rewrite app_nil_r. assumption.
    + simpl in B2, Arest. apply andb_true_iff in Arest as [Dd _].
      rewrite (digit_is_word d Dd) in B2. discriminate.
  - rewrite (word_before_digits None (c :: pre)) in B1;
      [discriminate | discriminate | assumption].
Qed.

Lemma digits_no_passport (s : text) :
  forallb is_digit s = true -> found (search passport_pattern s) = false.
Proof.
  intros A. destruct (found (search passport_pattern s)) eqn:F; [|reflexivity].
  destruct (found_search _ _ F) as (pre & g & rest & -> & M).
  destruct (passport_match_has_upper _ _ _ M) as (c & Hin & U).
  rewrite forallb_forall in A.
  assert (D : is_digit c = true).
  { apply A. apply in_or_app. right. apply in_or_app. now left. }
  rewrite (digit_not_upper c D) in U. discriminate.
Qed.

Lemma upi_found_has_at (s : text) :
  found (search upi_pattern s) = true -> In "@"%char s.
Proof.
  intros F. destruct (found_search _ _ F) as (pre & g & rest & -> & M).
  apply in_or_app. right. apply in_or_app. left.
  exact (upi_match_has_at _ _ _ M).
Qed.

Lemma digits_no_upi (s : text) :
  forallb is_digit s = true -> found (search upi_pattern s) = false.
Proof.
  intros A. destruct (found (search upi_pattern s)) eqn:F; [|reflexivity].
  apply upi_found_has_at in F. rewrite forallb_forall in A.
  apply A in F. discriminate F.
Qed.

(** ** Standalone detection: the phone boundary *)

Lemma run_length (n : nat) (s : text) : word_bounded_run n s -> n <= length s.
Proof.
  intros (pre & ds & post & -> & L & _). rewrite !length_app. lia.
Qed.

(** C5: [detect_standalone_pii] is true on every text that contains a
    word-bounded run of exactly 10 digits, and false on every text that is a
    bare run of exactly 9 or exactly 11 digits. *)
Theorem phone_rule_boundary :
  (forall s, word_bounded_run 10 s -> detect_standalone_pii (VStr s) = true) /\
  (forall s, forallb is_digit s = true -> length s = 9 \/ length s = 11 ->
             detect_standalone_pii (VStr s) = false).
Proof.
  split.
  - intros s R. simpl. unfold phone_pattern.
    rewrite (run_found 10 s); [reflexivity | lia | assumption].
  - intros s A L. simpl.
    assert (P : found (search phone_pattern s) = false).
    { destruct (found (search phone_pattern s)) eqn:F; [|reflexivity].
      apply digits_found_length in F; [lia | lia | assumption]. }
    assert (Q : found (search aadhar_pattern s) = false).
    { destruct (found (search aadhar_pattern s)) eqn:F; [|reflexivity].
      apply digits_found_length in F; [lia | lia | assumption]. }
    now rewrite P, Q, (digits_no_passport s A), (digits_no_upi s A).
Qed.

Lemma phone_rule_boundary_witness :
  word_bounded_run 10 (T "call 9876543210 now") /\
  detect_standalone_pii (VStr (T "call 9876543210 now")) = true /\
  detect_standalone_pii (VStr (T "123456789")) = false /\
  detect_standalone_pii (VStr (T "12345678901")) = false.
Proof.
  assert (R : word_bounded_run 10 (T "call 9876543210 now")).
  { exists (T "call "), (T "9876543210"), (T " now").
    repeat split; reflexivity. }
  split; [exact R|].
  split; [exact (proj1 phone_rule_boundary _ R)|].
  split; apply (proj2 phone_rule_boundary); simpl; auto.
Defined.

(** ** The phone rule of [redact_value] *)

Lemma two_ends (v : text) :
  4 <= length v -> exists a b mid c d, v = a :: b :: mid ++ [c; d].
Proof.
  intros L. destruct v as [|a [|b v]]; simpl in L; try lia.
  destruct (exists_last (l := v)) as (v1 & d & ->).
  { intros ->. simpl in L. lia. }
  rewrite length_app in L. simpl in L.
  destruct (exists_last (l := v1)) as (mid & c & ->).
  { intros ->. simpl in L. lia. }
  exists a, b, mid, c, d. now rewrite <- app_assoc.
Qed.

Lemma slice_last_ends (front back : text) :
  slice_last (length back) (front ++ back) = back.
Proof.
  unfold slice_last. rewrite length_app, Nat.add_sub.
  rewrite skipn_app, skipn_all, Nat.sub_diag. reflexivity.
Qed.

(** C7: on every text [v] that contains a word-bounded 10-digit token,
    [redact_value('phone', v)] is [v[0:2] + 'XXXXXX' + v[-2:]]: the first two
    and the last two characters of [v] are kept and everything between them
    is replaced by the six-character mask. *)
Theorem phone_redaction_shape (v : text) :
  word_bounded_run 10 v ->
  redact_value (T "phone") (VStr v)
    = Ok (VStr (slice_to 2 v ++ T "XXXXXX" ++ slice_last 2 v)) /\
  exists a b mid c d,
    v = [a; b] ++ mid ++ [c; d] /\
    redact_value (T "phone") (VStr v) = Ok (VStr ([a; b] ++ T "XXXXXX" ++ [c; d])).
Proof.
  intros R.
  assert (E : redact_value (T "phone") (VStr v)
              = Ok (VStr (slice_to 2 v ++ T "XXXXXX" ++ slice_last 2 v))).
  { unfold redact_value. rewrite text_eqb_refl. unfold phone_pattern.
    rewrite (run_found 10 v); [reflexivity | lia | assumption]. }
  split; [exact E|].
  destruct (two_ends v) as (a & b & mid & c & d & Hv).
  { pose proof (run_length _ _ R). lia. }
  exists a, b, mid, c, d. split; [exact Hv|].
  assert (S : slice_last 2 (a :: b :: mid ++ [c; d]) = [c; d])
    by exact (slice_last_ends (a :: b :: mid) [c; d]).
  rewrite E. subst v. rewrite S. reflexivity.
Qed.

Lemma phone_redaction_shape_witness :
  word_bounded_run 10 (T "tel 9876543210.") /\
  redact_value (T "phone") (VStr (T "tel 9876543210."))
    = Ok (VStr (T "teXXXXXX0.")).
Proof.
  assert (R : word_bounded_run 10 (T "tel 9876543210.")).
  { exists (T "tel "), (T "9876543210"), (T ".").
    repeat split; reflexivity. }
  split; [exact R|].
  exact (proj1 (phone_redaction_shape _ R)).
Defined.

(** ** Splitting *)

Lemma split_once_In (sep : ascii) (s : text) :
  In sep s ->
  exists a b, split_once sep s = Some (a, b) /\ s = a ++ sep :: b /\ ~ In sep a.
Proof.
  induction s as [|c s IH]; intros H; [destruct H|]. simpl.
  destruct (Ascii.eqb c sep) eqn:E.
  - apply Ascii.eqb_eq in E. subst c. exists [], s. simpl. auto.
  - destruct H as [-> | H]; [rewrite Ascii.eqb_refl in E; discriminate|].
    destruct (IH H) as (a & b & -> & -> & N).
    exists (c :: a), b. repeat split; auto.
    intros [-> | Hin]; [rewrite Ascii.eqb_refl in E; discriminate | auto].
Qed.

Lemma split_ws_aux_tokens (s : text) :
  forall cur, Forall (fun t => t <> []) (split_ws_aux cur s).
Proof.
  assert (R : forall (c : ascii) cur, rev (c :: cur) <> []).
  { intros c cur. simpl. destruct (rev cur); discriminate. }
  induction s as [|c s IH]; intros cur; simpl.
  - destruct cur; repeat constructor. apply R.
  - destruct (is_space c); [|apply IH].
    destruct cur; [apply IH|]. constructor; [apply R | apply IH].
Qed.

Lemma split_ws_aux_nil (s : text) :
  forall cur, split_ws_aux cur s = [] -> cur = [] /\ forallb is_space s = true.
Proof.
  induction s as [|c s IH]; intros cur H; simpl in *.
  - destruct cur; [auto | discriminate].
  - destruct (is_space c).
    + destruct cur; [|discriminate]. destruct (IH _ H). auto.
    + destruct (IH _ H). discriminate.
Qed.

Lemma split_ws_blank (s : text) :
  forallb is_space s = true -> split_ws s = [].
Proof.
  unfold split_ws. induction s as [|c s IH]; simpl; [reflexivity|].
  intros H. apply andb_true_iff in H as [Sc A]. rewrite Sc. auto.
Qed.

Lemma last_item_In {A : Type} (l : list A) :
  l <> [] -> exists x, last_item l = Ok x /\ In x l.
Proof.
  induction l as [|a l IH]; intros N; [congruence|].
  destruct l as [|b l]; [exists a; simpl; auto|].
  destruct IH as (x & E & Hin); [discriminate|].
  exists x. split; [exact E | now right].
Qed.

(** ** [redact_value] fails on blank names only *)

Lemma redact_value_raises (key : text) (value : jvalue) (e : exn) :
  redact_value key value = Raise e ->
  e = IndexError /\ key = T "name" /\
  exists s, value = VStr s /\ contains_char " " s = true /\
            forallb is_space s = true.
Proof.
  destruct value as [ | b | z | shown | s | items | items ];
    try discriminate.
  unfold redact_value.
  destruct (text_eqb key (T "phone") && _); [discriminate|].
  destruct (text_eqb key (T "aadhar") && _); [discriminate|].
  destruct (text_eqb key (T "passport") && _) eqn:Cp.
  { destruct s; [|discriminate].
    apply andb_true_iff in Cp as [_ Cp]. vm_compute in Cp. discriminate. }
  destruct (text_eqb key (T "upi_id") && _).
  { destruct (contains_char "@" s) eqn:At; [|discriminate].
    apply contains_char_In, split_once_In in At as (a & b & E & _).
    unfold unpack_split. rewrite E. discriminate. }
  destruct (text_eqb key (T "name") && contains_char " " s) eqn:Cn.
  { apply andb_true_iff in Cn as [Kn Sp]. apply text_eqb_eq in Kn.
    pose proof (split_ws_aux_tokens s []) as Tk. fold (split_ws s) in Tk.
    destruct (split_ws s) as [|head parts] eqn:Es.
    - intros H. inversion H. repeat split; auto.
      exists s. repeat split; auto.
      apply (split_ws_aux_nil s []). exact Es.
    - destruct (last_item_In (head :: parts)) as (tail & El & Hin);
        [discriminate|].
      rewrite Forall_forall in Tk.
      pose proof (Tk head (or_introl eq_refl)) as Nh.
      pose proof (Tk tail Hin) as Nt.
      cbn [first_item bind]. rewrite El. cbn [bind].
      destruct head; [congruence|]. destruct tail; [congruence|].
      discriminate. }
  destruct (text_eqb key (T "email") && contains_char "@" s) eqn:Ce.
  { apply andb_true_iff in Ce as [_ At].
    apply contains_char_In, split_once_In in At as (a & b & E & _).
    unfold unpack_split. rewrite E. discriminate. }
  destruct (text_eqb key (T "address")); [|discriminate].
  destruct (search pin_pattern s); discriminate.
Qed.

Lemma digit_token_found_nonspace (n : nat) (s : text) :
  0 < n -> found (search (digit_token n) s) = true ->
  exists c, In c s /\ is_space c = false.
Proof.
  intros Hn F. destruct (found_search _ _ F) as (pre & g & rest & -> & M).
  apply digit_token_matches in M as (L & A & _).
  destruct g as [|c g]; [simpl in L; lia|]. simpl in A.
  apply andb_true_iff in A as [Dc _]. exists c. split; auto with classes.
  apply in_or_app. right. simpl. auto.
Qed.

Lemma standalone_nonspace (s : text) :
  detect_standalone_pii (VStr s) = true ->
  exists c, In c s /\ is_space c = false.
Proof.
  simpl. rewrite !orb_true_iff. intros [[[F | F] | F] | F].
  - apply (digit_token_found_nonspace 10); [lia | exact F].
  - apply (digit_token_found_nonspace 12); [lia | exact F].
  - destruct (found_search _ _ F) as (pre & g & rest & -> & M).
    destruct (passport_match_has_upper _ _ _ M) as (c & Hin & U).
    exists c. split; auto with classes.
    apply in_or_app. right. apply in_or_app. now left.
  - exists "@"%char. split; [now apply upi_found_has_at | reflexivity].
Qed.

(** The first loop of [process_record] never fails in [redact_value]. *)
Lemma redact_after_detection (key : text) (value : jvalue) :
  detect_standalone_pii (VStr (py_str value)) = true ->
  exists v, redact_value key value = Ok v.
Proof.
  intros D. destruct (redact_value key value) as [v|e] eqn:E; [eauto|].
  apply redact_value_raises in E as (_ & _ & s & -> & _ & A).
  simpl in D. destruct (standalone_nonspace s D) as (c & Hin & Nc).
  rewrite forallb_forall in A. rewrite (A c Hin) in Nc. discriminate.
Qed.

Lemma redact_value_blank_name (s : text) :
  contains_char " " s = true -> forallb is_space s = true ->
  redact_value (T "name") (VStr s) = Raise IndexError.
Proof.
  intros Sp A. unfold redact_value.
  change (text_eqb (T "name") (T "phone")) with false.
  change (text_eqb (T "name") (T "aadhar")) with false.
  change (text_eqb (T "name") (T "passport")) with false.
  change (text_eqb (T "name") (T "upi_id")) with false.
  change (text_eqb (T "name") (T "name")) with true.
  cbn [andb]. rewrite Sp, (split_ws_blank s A). reflexivity.
Qed.

(** C1: the name rule of [redact_value] is not total.  On the name [' '],
    which contains a space, [split()] yields no token and [parts[0]] raises
    [IndexError]; the failure is reached from [process_record] on a record
    whose combinatorial rule fires. *)
Theorem redact_value_name_not_total :
  contains_char " " (T " ") = true /\
  redact_value (T "name") (VStr (T " ")) = Raise IndexError /\
  detect_combinatorial_pii
    [(T "name", VStr (T " ")); (T "email", VStr (T "a@b"));
     (T "device_id", VStr (T "d1"))] = true /\
  process_record sample_json 1
    (dq (T "{'name': ' ', 'email': 'a@b', 'device_id': 'd1'}"))
    = Raise IndexError.
Proof. vm_compute. auto. Qed.

(** ** The payment-handle rule *)

(** C10: whenever the UPI pattern matches [v], [v] contains ['@'], so
    [redact_value('upi_id', v)] takes the split-at-['@'] transform: the
    result is the first two characters of the text before the first ['@'],
    then ['XXX@'], then the text after it.  The transform without ['@'] is
    never the one executed. *)
Theorem upi_rule_always_splits (v : text) :
  found (search upi_pattern v) = true ->
  contains_char "@" v = true /\
  exists username domain,
    v = username ++ "@"%char :: domain /\ ~ In "@"%char username /\
    redact_value (T "upi_id") (VStr v)
      = Ok (VStr (slice_to 2 username ++ T "XXX@" ++ domain)).
Proof.
  intros F. pose proof (upi_found_has_at v F) as Hin.
  assert (At : contains_char "@" v = true) by now apply contains_char_In.
  split; [exact At|].
  destruct (split_once_In _ _ Hin) as (username & domain & E & Hv & N).
  exists username, domain. repeat split; auto.
  unfold redact_value.
  change (text_eqb (T "upi_id") (T "phone")) with false.
  change (text_eqb (T "upi_id") (T "aadhar")) with false.
  change (text_eqb (T "upi_id") (T "passport")) with false.
  change (text_eqb (T "upi_id") (T "upi_id")) with true.
  cbn [andb]. rewrite F, At. unfold unpack_split. rewrite E. reflexivity.
Qed.

Lemma upi_rule_always_splits_witness :
  found (search upi_pattern (T "9876543210@upi")) = true /\
  contains_char "@" (T "9876543210@upi") = true /\
  exists username domain,
    T "9876543210@upi" = username ++ "@"%char :: domain /\
    ~ In "@"%char username /\
    redact_value (T "upi_id") (VStr (T "9876543210@upi"))
      = Ok (VStr (slice_to 2 username ++ T "XXX@" ++ domain)).
Proof.
  split; [reflexivity|]. apply upi_rule_always_splits. reflexivity.
Defined.

(** ** The combinatorial rule *)

Lemma flag_step_flags (fl : flags) (item : text * jvalue) :
  flag_name (flag_step fl item)
    = flag_name fl || item_holds (T "name") name_test item /\
  flag_email (flag_step fl item)
    = flag_email fl || item_holds (T "email") (contains_char "@") item /\
  flag_address (flag_step fl item)
    = flag_address fl || item_holds (T "address") address_test item /\
  flag_device_ip (flag_step fl item)
    = flag_device_ip fl
      || (item_holds (T "device_id") any_text item
          || item_holds (T "ip_address") any_text item).
Proof.
  destruct item as [key value], fl as [a b c d].
  unfold flag_step, item_holds, any_text, key_in, device_keys.
  cbn [fst snd existsb].
  destruct value;
    cbn [flag_name flag_email flag_address flag_device_ip];
    rewrite ?andb_false_r, ?orb_false_r; auto.
  rewrite <- (andb_assoc (text_eqb key (T "name"))), !andb_true_r.
  change (contains_char " " s && (2 <=? length (split_ws s))%nat)
    with (name_test s).
  change (existsb (fun term => contains term (lower s)) address_terms)
    with (address_test s).
  destruct (text_eqb key (T "name") && name_test s),
    (text_eqb key (T "email") && contains_char "@" s),
    (text_eqb key (T "address") && address_test s),
    (text_eqb key (T "device_id")), (text_eqb key (T "ip_address"));
    cbn [flag_name flag_email flag_address flag_device_ip orb];
    rewrite ?orb_false_r, ?orb_true_r; auto.
Qed.

Lemma holds_cons (item : text * jvalue) (data : dict) (key : text)
  (p : text -> bool) :
  holds (item :: data) key p = item_holds key p item || holds data key p.
Proof. reflexivity. Qed.

Lemma fold_flags (data : dict) :
  forall fl,
  flag_name (fold_left flag_step data fl)
    = flag_name fl || holds data (T "name") name_test /\
  flag_email (fold_left flag_step data fl)
    = flag_email fl || holds data (T "email") (contains_char "@") /\
  flag_address (fold_left flag_step data fl)
    = flag_address fl || holds data (T "address") address_test /\
  flag_device_ip (fold_left flag_step data fl)
    = flag_device_ip fl
      || (holds data (T "device_id") any_text
          || holds data (T "ip_address") any_text).
Proof.
  induction data as [|item data IH]; intros fl; cbn [fold_left].
  - unfold holds. cbn [existsb]. rewrite !orb_false_r. auto.
  - rewrite !holds_cons.
    destruct (IH (flag_step fl item)) as (H1 & H2 & H3 & H4).
    destruct (flag_step_flags fl item) as (S1 & S2 & S3 & S4).
    rewrite H1, H2, H3, H4, S1, S2, S3, S4.
    repeat split; rewrite <- ?orb_assoc; try reflexivity.
    f_equal.
    destruct (item_holds (T "device_id") any_text item),
      (item_holds (T "ip_address") any_text item),
      (holds data (T "device_id") any_text),
      (holds data (T "ip_address") any_text); reflexivity.
Qed.

Lemma combinatorial_flags_signals (data : dict) :
  flag_name (combinatorial_flags data) = flag_name_of data /\
  flag_email (combinatorial_flags data) = flag_email_of data /\
  flag_address (combinatorial_flags data) = flag_address_of data /\
  flag_device_ip (combinatorial_flags data) = flag_device_ip_of data.
Proof.
  destruct (fold_flags data no_flags) as (H1 & H2 & H3 & H4).
  unfold combinatorial_flags. rewrite H1, H2, H3, H4. simpl. auto.
Qed.

Lemma detect_signal_count (data : dict) :
  detect_combinatorial_pii data = (2 <=? flag_count_of data)%nat.
Proof.
  unfold detect_combinatorial_pii, flag_count, flag_count_of.
  destruct (combinatorial_flags_signals data) as (H1 & H2 & H3 & H4).
  now rewrite H1, H2, H3, H4.
Qed.

Lemma holds_In (data : dict) (key : text) (p : text -> bool) :
  holds data key p = true <->
  exists s, In (key, VStr s) data /\ p s = true.
Proof.
  unfold holds. rewrite existsb_exists. split.
  - intros ([k v] & Hin & H). unfold item_holds in H. simpl in H.
    apply andb_true_iff in H as [K P]. apply text_eqb_eq in K. subst k.
    destruct v; try discriminate. eauto.
  - intros (s & Hin & P). exists (key, VStr s). split; [assumption|].
    unfold item_holds. simpl. now rewrite text_eqb_refl.
Qed.

(** C2, as stated, fails: the record below has a key [device_id], holding
    a number, and the [device_ip] flag stays false. *)
Lemma device_ip_presence_counterexample :
  ~ (In (T "device_id")
        (keys [(T "name", VStr (T "Jane Doe")); (T "device_id", VInt 42)]) ->
     flag_device_ip
       (combinatorial_flags
          [(T "name", VStr (T "Jane Doe")); (T "device_id", VInt 42)]) = true).
Proof.
  intros H. assert (F : false = true); [|discriminate F].
  apply H. simpl. auto.
Qed.

(** C2, amended: the [device_ip] flag is set exactly when the mapping has
    a key [device_id] or [ip_address] whose value is a string, whatever the
    string; such a key holding a number, a boolean or null does not set it. *)
Theorem device_ip_needs_string (data : dict) :
  flag_device_ip (combinatorial_flags data) = true <->
  exists key s, In (key, VStr s) data /\
                (key = T "device_id" \/ key = T "ip_address").
Proof.
  destruct (combinatorial_flags_signals data) as (_ & _ & _ & ->).
  unfold flag_device_ip_of. rewrite orb_true_iff, !holds_In. split.
  - intros [(s & Hin & _) | (s & Hin & _)]; eauto.
  - intros (key & s & Hin & [-> | ->]); [left | right]; exists s; auto.
Qed.

Lemma device_ip_needs_string_witness :
  In (T "ip_address", VStr (T "")) [(T "ip_address", VStr (T ""))] /\
  flag_device_ip (combinatorial_flags [(T "ip_address", VStr (T ""))]) = true.
Proof.
  assert (H : In (T "ip_address", VStr (T "")) [(T "ip_address", VStr (T ""))])
    by (simpl; auto).
  split; [exact H|].
  apply (proj2 (device_ip_needs_string [(T "ip_address", VStr (T ""))])).
  exists (T "ip_address"), (T ""). split; [exact H | right; reflexivity].
Defined.

(** ** The flags against the signals *)

Lemma starts_with_iff (p s : text) :
  starts_with p s = true <-> exists post, s = p ++ post.
Proof.
  revert s. induction p as [|a p IH]; intros s; simpl.
  - split; [intros _; now exists s | reflexivity].
  - destruct s as [|b s].
    + split; [discriminate | intros (post & E); discriminate].
    + rewrite andb_true_iff, Ascii.eqb_eq, IH. split.
      * intros [-> (post & ->)]. now exists post.
      * intros (post & E). inversion E. eauto.
Qed.

Lemma contains_iff (needle s : text) :
  contains needle s = true <-> exists pre post, s = pre ++ needle ++ post.
Proof.
  induction s as [|c s IH]; simpl; rewrite orb_true_iff, starts_with_iff.
  - split.
    + intros [(post & E) | H]; [|discriminate]. now exists [], post.
    + intros (pre & post & E). left.
      destruct pre; [now exists post | discriminate].
  - rewrite IH. split.
    + intros [(post & E) | (pre & post & ->)].
      * now exists [], post.
      * now exists (c :: pre), post.
    + intros ([|d pre] & post & E).
      * left. now exists post.
      * right. inversion E. now exists pre, post.
Qed.

Lemma address_test_iff (s : text) :
  address_test s = true <->
  exists term pre post, In term address_terms /\ lower s = pre ++ term ++ post.
Proof.
  unfold address_test. rewrite existsb_exists. split.
  - intros (term & Hin & C). apply contains_iff in C as (pre & post & E).
    now exists term, pre, post.
  - intros (term & pre & post & Hin & E). exists term. split; [exact Hin|].
    apply contains_iff. now exists pre, post.
Qed.

Lemma split_ws_aux_prefix (x s : text) :
  forall cur, exists emitted cur',
    split_ws_aux cur (x ++ s) = emitted ++ split_ws_aux cur' s.
Proof.
  induction x as [|c x IH]; intros cur.
  - now exists [], cur.
  - simpl. destruct (is_space c).
    + destruct cur as [|d cur].
      * apply IH.
      * destruct (IH []) as (emitted & cur' & ->).
        now exists (rev (d :: cur) :: emitted), cur'.
    + apply IH.
Qed.

Lemma split_ws_aux_to_space (w : ascii) (s : text) :
  is_space w = true ->
  forall y cur, exists emitted,
    split_ws_aux cur (y ++ w :: s) = emitted ++ split_ws_aux [] s /\
    (cur <> [] -> emitted <> []).
Proof.
  intros Sw. induction y as [|c y IH]; intros cur; simpl.
  - rewrite Sw. destruct cur as [|d cur].
    + exists []. split; [reflexivity | congruence].
    + exists [rev (d :: cur)]. split; [reflexivity | discriminate].
  - destruct (is_space c).
    + destruct cur as [|d cur]; [apply IH|].
      destruct (IH []) as (emitted & -> & _).
      exists (rev (d :: cur) :: emitted). split; [reflexivity | discriminate].
    + destruct (IH (c :: cur)) as (emitted & E & N).
      exists emitted. split; [exact E|]. intros _. apply N. discriminate.
Qed.

Lemma split_ws_aux_some_token (z u : text) (b : ascii) (cur : text) :
  is_space b = false -> split_ws_aux cur (z ++ b :: u) <> [].
Proof.
  intros Nb H. apply split_ws_aux_nil in H as [_ A].
  rewrite forallb_app in A. apply andb_true_iff in A as [_ A].
  simpl in A. rewrite Nb in A. discriminate.
Qed.

Lemma first_token_start (s : text) :
  split_ws_aux [] s <> [] ->
  exists x a r, s = x ++ a :: r /\ is_space a = false /\
                split_ws_aux [] s = split_ws_aux [a] r.
Proof.
  induction s as [|c s IH]; intros H; [now destruct H|].
  simpl in *. destruct (is_space c) eqn:Sc.
  - destruct (IH H) as (x & a & r & -> & Na & E).
    now exists (c :: x), a, r.
  - now exists [], c, s.
Qed.

Lemma second_token_start (r : text) :
  forall cur, cur <> [] -> 2 <= length (split_ws_aux cur r) ->
  exists y w z b u, r = y ++ w :: z ++ b :: u /\
                    is_space w = true /\ is_space b = false.
Proof.
  induction r as [|c r IH]; intros cur N L; simpl in L.
  - destruct cur; simpl in L; lia.
  - destruct (is_space c) eqn:Sc.
    + destruct cur as [|d cur]; [congruence|]. simpl in L.
      destruct (first_token_start r) as (z & b & u & -> & Nb & _).
      { intros E. rewrite E in L. simpl in L. lia. }
      now exists [], c, z, b, u.
    + destruct (IH (c :: cur)) as (y & w & z & b & u & -> & Sw & Nb);
        [discriminate | exact L |].
      now exists (c :: y), w, z, b, u.
Qed.

Lemma two_tokens_iff (s : text) :
  (2 <=? length (split_ws s))%nat = true <-> two_tokens s.
Proof.
  rewrite Nat.leb_le. unfold split_ws. split.
  - intros L.
    destruct (first_token_start s) as (x & a & r & -> & Na & E).
    { intros E. rewrite E in L. simpl in L. lia. }
    rewrite E in L.
    destruct (second_token_start r [a]) as (y & w & z & b & u & -> & Sw & Nb);
      [discriminate | exact L |].
    now exists x, a, y, w, z, b, u.
  - intros (x & a & y & w & z & b & u & -> & Na & Sw & Nb).
    destruct (split_ws_aux_prefix x (a :: y ++ w :: z ++ b :: u) [])
      as (e0 & cur & ->).
    simpl. rewrite Na.
    destruct (split_ws_aux_to_space w (z ++ b :: u) Sw y (a :: cur))
      as (e1 & -> & N1).
    pose proof (split_ws_aux_some_token z u b [] Nb) as N2.
    rewrite !length_app.
    destruct e1; [now destruct N1|].
    destruct (split_ws_aux [] (z ++ b :: u)); [now destruct N2|].
    simpl. lia.
Qed.

Lemma name_test_iff (s : text) :
  name_test s = true <-> In " "%char s /\ two_tokens s.
Proof.
  unfold name_test.
  now rewrite andb_true_iff, contains_char_In, two_tokens_iff.
Qed.

Lemma flags_are_signals (data : dict) :
  (flag_name_of data = true <-> name_signal data) /\
  (flag_email_of data = true <-> email_signal data) /\
  (flag_address_of data = true <-> address_signal data) /\
  (flag_device_ip_of data = true <-> device_ip_string_signal data).
Proof.
  unfold flag_name_of, flag_email_of, flag_address_of, flag_device_ip_of,
    name_signal, email_signal, address_signal, device_ip_string_signal.
  rewrite orb_true_iff, !holds_In. repeat split.
  - intros (s & Hin & P). apply name_test_iff in P. eauto.
  - intros (s & Hin & P). exists s. now rewrite name_test_iff.
  - intros (s & Hin & P). apply contains_char_In in P. eauto.
  - intros (s & Hin & P). exists s. now rewrite contains_char_In.
  - intros (s & Hin & P).
    apply address_test_iff in P as (term & pre & post & Ht & E).
    now exists s, term, pre, post.
  - intros (s & term & pre & post & Hin & Ht & E). exists s.
    split; [exact Hin|]. apply address_test_iff. now exists term, pre, post.
  - intros [(s & Hin & _) | (s & Hin & _)]; eauto.
  - intros (key & s & Hin & [-> | ->]); [left | right]; exists s; auto.
Qed.

Lemma two_of_four (b1 b2 b3 b4 : bool) (P1 P2 P3 P4 : Prop) :
  (b1 = true <-> P1) -> (b2 = true <-> P2) ->
  (b3 = true <-> P3) -> (b4 = true <-> P4) ->
  (2 <=? Nat.b2n b1 + Nat.b2n b2 + Nat.b2n b3 + Nat.b2n b4)%nat = true <->
  at_least_two P1 P2 P3 P4.
Proof.
  intros H1 H2 H3 H4. unfold at_least_two.
  rewrite <- H1, <- H2, <- H3, <- H4.
  destruct b1, b2, b3, b4; simpl; intuition discriminate.
Qed.

(** C6, as stated, fails: with the [device_ip] signal read as presence of
    the key, the record below has two signals (email and device_ip), and
    [detect_combinatorial_pii] is false on it, the device id being a
    number. *)
Lemma two_signals_by_presence_counterexample :
  ~ (detect_combinatorial_pii
       [(T "email", VStr (T "a@b")); (T "device_id", VInt 42)] = true <->
     at_least_two
       (name_signal [(T "email", VStr (T "a@b")); (T "device_id", VInt 42)])
       (email_signal [(T "email", VStr (T "a@b")); (T "device_id", VInt 42)])
       (address_signal [(T "email", VStr (T "a@b")); (T "device_id", VInt 42)])
       (device_ip_key_present
          [(T "email", VStr (T "a@b")); (T "device_id", VInt 42)])).
Proof.
  intros [_ H]. assert (F : false = true); [|discriminate F].
  apply H. unfold at_least_two. right. right. right. right. left. split.
  - exists (T "a@b"). simpl. auto.
  - exists (T "device_id"), (VInt 42). simpl. auto.
Qed.

(** C6, amended: [detect_combinatorial_pii] is true exactly when at least
    two of the four signals hold, the [device_ip] signal being that
    [device_id] or [ip_address] holds a string.  A mapping with only name
    ['Jane Doe'] and email ['jane@x.com'] is flagged, a mapping with only
    name ['Jane Doe'] is not. *)
Theorem combinatorial_two_of_four :
  (forall data,
     detect_combinatorial_pii data = true <->
     at_least_two (name_signal data) (email_signal data)
       (address_signal data) (device_ip_string_signal data)) /\
  detect_combinatorial_pii
    [(T "name", VStr (T "Jane Doe")); (T "email", VStr (T "jane@x.com"))]
    = true /\
  detect_combinatorial_pii [(T "name", VStr (T "Jane Doe"))] = false.
Proof.
  split; [|split; reflexivity].
  intros data. rewrite detect_signal_count. unfold flag_count_of.
  destruct (flags_are_signals data) as (H1 & H2 & H3 & H4).
  now apply two_of_four.
Qed.

Lemma combinatorial_two_of_four_witness :
  at_least_two
    (name_signal [(T "name", VStr (T "Jane Doe")); (T "address", VStr (T "MG Road"))])
    (email_signal [(T "name", VStr (T "Jane Doe")); (T "address", VStr (T "MG Road"))])
    (address_signal [(T "name", VStr (T "Jane Doe")); (T "address", VStr (T "MG Road"))])
    (device_ip_string_signal
       [(T "name", VStr (T "Jane Doe")); (T "address", VStr (T "MG Road"))]) /\
  detect_combinatorial_pii
    [(T "name", VStr (T "Jane Doe")); (T "address", VStr (T "MG Road"))] = true.
Proof.
  assert (H : at_least_two
    (name_signal [(T "name", VStr (T "Jane Doe")); (T "address", VStr (T "MG Road"))])
    (email_signal [(T "name", VStr (T "Jane Doe")); (T "address", VStr (T "MG Road"))])
    (address_signal [(T "name", VStr (T "Jane Doe")); (T "address", VStr (T "MG Road"))])
    (device_ip_string_signal
       [(T "name", VStr (T "Jane Doe")); (T "address", VStr (T "MG Road"))])).
  { right. left. split.
    - exists (T "Jane Doe"). split; [simpl; auto|]. split; [simpl; auto 10|].
      exists [], "J"%char, (T "ane"), " "%char, [], "D"%char, (T "oe").
      repeat split; reflexivity.
    - exists (T "MG Road"), (T "road"), (T "mg "), [].
      repeat split; simpl; auto. }
  split; [exact H|].
  exact (proj2 (proj1 combinatorial_two_of_four _) H).
Defined.

(** ** Dictionaries *)

Lemma keys_app (a b : dict) : keys (a ++ b) = keys a ++ keys b.
Proof. unfold keys. apply map_app. Qed.

Lemma dict_set_present (d : dict) (key : text) (v : jvalue) :
  In key (keys d) -> keys (dict_set d key v) = keys d.
Proof.
  induction d as [|[k x] d IH]; intros H; [destruct H|]. simpl.
  destruct (text_eqb k key) eqn:E; [reflexivity|]. simpl. f_equal.
  apply IH. destruct H as [H | H]; [|assumption].
  simpl in H. subst k. rewrite text_eqb_refl in E. discriminate.
Qed.

Lemma dict_set_middle (front back : dict) (key : text) (x v : jvalue) :
  ~ In key (keys front) ->
  dict_set (front ++ (key, x) :: back) key v = front ++ (key, v) :: back.
Proof.
  induction front as [|[k y] front IH]; intros N; simpl.
  - now rewrite text_eqb_refl.
  - destruct (text_eqb k key) eqn:E.
    + apply text_eqb_eq in E. subst k. exfalso. apply N. simpl. auto.
    + f_equal. apply IH. intros H. apply N. simpl. auto.
Qed.

Lemma dict_set_new (d : dict) (key : text) (v : jvalue) :
  ~ In key (keys d) -> dict_set d key v = d ++ [(key, v)].
Proof.
  induction d as [|[k y] d IH]; intros N; simpl; [reflexivity|].
  destruct (text_eqb k key) eqn:E.
  - apply text_eqb_eq in E. subst k. exfalso. apply N. simpl. auto.
  - f_equal. apply IH. intros H. apply N. simpl. auto.
Qed.

Lemma dict_get_In (d : dict) (key : text) (v : jvalue) :
  wf_dict d -> In (key, v) d -> dict_get d key = Some v.
Proof.
  unfold wf_dict. induction d as [|[k x] d IH]; intros W H; [destruct H|].
  simpl in *. inversion W as [|? ? Nk W']; subst.
  destruct H as [H | H].
  - inversion H; subst. now rewrite text_eqb_refl.
  - destruct (text_eqb k key) eqn:E; [|auto].
    apply text_eqb_eq in E. subst k. exfalso. apply Nk.
    change key with (fst (key, v)). now apply in_map.
Qed.

Lemma nth_error_middle (front back : dict) (item : text * jvalue) :
  nth_error (front ++ item :: back) (length front) = Some item.
Proof.
  rewrite nth_error_app2, Nat.sub_diag; [reflexivity | lia].
Qed.

Lemma no_dup_middle (front back : list text) (key : text) :
  NoDup (front ++ key :: back) -> ~ In key front.
Proof.
  intros W H. apply NoDup_remove_2 in W. apply W. apply in_or_app. now left.
Qed.

(** ** The first loop *)

Lemma keys_scan (items : dict) : keys (map scan_item items) = keys items.
Proof. unfold keys. rewrite map_map. reflexivity. Qed.

Lemma scan_fields_ok (items : dict) :
  forall has_pii acc, NoDup (keys acc ++ keys items) ->
  scan_fields items has_pii acc
    = Ok (has_pii || existsb standalone_hit items, acc ++ map scan_item items).
Proof.
  induction items as [|[key value] items IH]; intros has_pii acc W.
  - simpl. now rewrite orb_false_r, app_nil_r.
  - assert (N : ~ In key (keys acc)) by exact (no_dup_middle _ _ _ W).
    assert (W' : forall v, NoDup (keys (acc ++ [(key, v)]) ++ keys items)).
    { intros v. rewrite keys_app, <- app_assoc. exact W. }
    cbn [scan_fields existsb map].
    change (scan_item (key, value))
      with (key, if detect_standalone_pii (VStr (py_str value))
                 then match redact_value key value with
                      | Ok v => v
                      | Raise _ => value
                      end
                 else value).
    change (standalone_hit (key, value))
      with (detect_standalone_pii (VStr (py_str value))).
    destruct (detect_standalone_pii (VStr (py_str value))) eqn:D.
    + destruct (redact_after_detection key value D) as (v & ->).
      cbn [bind]. rewrite (dict_set_new _ _ _ N), (IH _ _ (W' v)).
      now rewrite <- app_assoc, orb_true_r.
    + rewrite (dict_set_new _ _ _ N), (IH _ _ (W' value)).
      now rewrite <- app_assoc.
Qed.

Lemma scan_no_hit (items : dict) :
  existsb standalone_hit items = false -> map scan_item items = items.
Proof.
  induction items as [|[key value] items IH]; intros H; [reflexivity|].
  simpl in H. apply orb_false_iff in H as [H1 H2].
  simpl. unfold scan_item at 1. rewrite H1, (IH H2). reflexivity.
Qed.

(** ** The second loop *)

Lemma nth_error_key (d : dict) (i : nat) (key : text) (value : jvalue) :
  nth_error d i = Some (key, value) -> In key (keys d).
Proof.
  intros H. apply nth_error_In in H.
  change key with (fst (key, value)). now apply in_map.
Qed.

Lemma reredact_keys (positions : list nat) :
  forall rd rd', reredact positions rd = Ok rd' -> keys rd' = keys rd.
Proof.
  induction positions as [|i positions IH]; intros rd rd' H;
    cbn [reredact] in H.
  - now inversion H.
  - destruct (nth_error rd i) as [[key value]|] eqn:E; [|now inversion H].
    destruct (key_in key quasi_keys); [|now apply IH].
    destruct (redact_value key value) as [v|e]; [|discriminate].
    cbn [bind] in H. rewrite (IH _ _ H).
    apply dict_set_present. exact (nth_error_key _ _ _ _ E).
Qed.

Lemma blank_name_cons (item : text * jvalue) (data : dict) :
  blank_name (item :: data)
    = item_holds (T "name")
        (fun s => contains_char " " s && forallb is_space s) item
      || blank_name data.
Proof. reflexivity. Qed.

Lemma reredact_raises (todo : dict) :
  forall done e, NoDup (keys (done ++ todo)) ->
  reredact (seq (length done) (length todo)) (done ++ todo) = Raise e ->
  e = IndexError /\ blank_name todo = true.
Proof.
  induction todo as [|[key value] todo IH]; intros done e W H.
  - discriminate H.
  - cbn [length seq reredact] in H. rewrite nth_error_middle in H.
    assert (N : ~ In key (keys done)).
    { rewrite keys_app in W. exact (no_dup_middle _ _ _ W). }
    assert (Step : forall v,
      reredact (seq (S (length done)) (length todo))
               (done ++ (key, v) :: todo) = Raise e ->
      e = IndexError /\ blank_name todo = true).
    { intros v Hv. apply (IH (done ++ [(key, v)])).
      - rewrite <- app_assoc. simpl.
        rewrite keys_app in *. simpl in *. exact W.
      - rewrite length_app, Nat.add_1_r, <- app_assoc. exact Hv. }
    rewrite blank_name_cons.
    destruct (key_in key quasi_keys).
    + destruct (redact_value key value) as [v|e'] eqn:R; cbn [bind] in H.
      * rewrite (dict_set_middle _ _ _ _ _ N) in H.
        destruct (Step v H) as [-> ->]. now rewrite orb_true_r.
      * inversion H; subst e'.
        apply redact_value_raises in R as (-> & -> & s & -> & Sp & A).
        split; [reflexivity|]. unfold item_holds. cbn [fst snd].
        now rewrite text_eqb_refl, Sp, A.
    + destruct (Step value H) as [-> ->]. now rewrite orb_true_r.
Qed.

(** ** [process_record] *)

Lemma process_fields_cases (data : dict) :
  wf_dict data ->
  (existsb standalone_hit data = true /\
   process_fields data = Ok (map scan_item data, true)) \/
  (existsb standalone_hit data = false /\
   detect_combinatorial_pii data = false /\
   process_fields data = Ok (data, false)) \/
  (existsb standalone_hit data = false /\
   detect_combinatorial_pii data = true /\
   ((exists rd, process_fields data = Ok (rd, true) /\ keys rd = keys data) \/
    (process_fields data = Raise IndexError /\ blank_name data = true))).
Proof.
  intros W. unfold process_fields.
  rewrite (scan_fields_ok data false []); [|exact W].
  cbn [bind app orb].
  destruct (existsb standalone_hit data) eqn:Hit; cbn [negb andb].
  - left. auto.
  - right. rewrite (scan_no_hit data Hit).
    destruct (detect_combinatorial_pii data); [right | left; auto].
    repeat split.
    destruct (reredact (seq 0 (length data)) data) as [rd|e] eqn:R;
      cbn [bind].
    + left. exists rd. split; [reflexivity|]. exact (reredact_keys _ _ _ R).
    + right. destruct (reredact_raises data [] e W R) as [-> B]. auto.
Qed.

Lemma process_fields_keys (data rd : dict) (flag : bool) :
  wf_dict data -> process_fields data = Ok (rd, flag) -> keys rd = keys data.
Proof.
  intros W H.
  destruct (process_fields_cases data W)
    as [(_ & E) | [(_ & _ & E) | (_ & _ & [(rd' & E & K) | (E & _)])]];
    rewrite E in H; inversion H; subst; auto using keys_scan.
Qed.

Lemma process_fields_returns (data : dict) :
  wf_dict data -> blank_name data = false ->
  exists rd flag, process_fields data = Ok (rd, flag).
Proof.
  intros W B.
  destruct (process_fields_cases data W)
    as [(_ & E) | [(_ & _ & E) | (_ & _ & [(rd' & E & K) | (E & B')])]];
    eauto. congruence.
Qed.

(** ** Non-string values *)

Lemma redact_value_non_string (key : text) (value : jvalue) :
  is_str value = false -> redact_value key value = Ok value.
Proof. destruct value; simpl; intros H; congruence. Qed.

Lemma scan_item_non_string (key : text) (value : jvalue) :
  is_str value = false -> scan_item (key, value) = (key, value).
Proof.
  intros H. unfold scan_item. cbn [fst snd].
  rewrite (redact_value_non_string key value H).
  now destruct (standalone_hit (key, value)).
Qed.

(** ** The orchestrator, for any [json] module *)

Section Orchestrator.

Variable J : json_module.
Variable record_id : Z.

(** C3, amended: a payload on which [json.loads] raises
    [JSONDecodeError] is returned unchanged, paired with the flag false, and
    [process_record] does not raise on it.  What [json.loads] accepts is
    processed as decoded, whether or not it is valid JSON. *)
Theorem malformed_payload_echoed (data_json : text) :
  json_loads J data_json = None ->
  process_record J record_id data_json = Ok (data_json, false).
Proof. intros H. unfold process_record. now rewrite H. Qed.

(** C8: the recovery covers decoding failures only.  When the payload is
    valid JSON and decodes to anything but an object (an array, a number, a
    string, a boolean or null), [process_record] raises: the decoded value
    has no [items]. *)
Theorem non_object_payload_raises (data_json : text) (v : jvalue) :
  json_loads J data_json = Some v ->
  (forall data, v <> VDict data) ->
  process_record J record_id data_json = Raise AttributeError.
Proof.
  intros H N. unfold process_record. rewrite H.
  destruct v; try reflexivity. exfalso. now apply (N items).
Qed.

(** C4: when the payload decodes to a mapping, the mapping that
    [process_record] re-encodes and returns has the keys of the decoded
    mapping, in the same order: values are replaced, keys are neither added
    nor removed. *)
Theorem process_record_keeps_keys (data_json : text) (data : dict)
  (out : text) (flag : bool) :
  json_loads J data_json = Some (VDict data) ->
  wf_dict data ->
  process_record J record_id data_json = Ok (out, flag) ->
  exists rd, process_fields data = Ok (rd, flag) /\
             out = json_dumps J (VDict rd) /\
             keys rd = keys data.
Proof.
  intros L W. unfold process_record. rewrite L. intros H.
  destruct (process_fields data) as [[rd fl]|e] eqn:E; [|discriminate].
  cbn [bind fst snd] in H. inversion H; subst.
  exists rd. repeat split. exact (process_fields_keys _ _ _ W E).
Qed.

(** C9: detection reads the stringified value, redaction leaves a value
    that is not a string as it is.  When a field holds a non-string value
    whose text matches a standalone pattern (the number 9876543210, say), the
    record is flagged and the returned mapping still holds that value,
    unredacted. *)
Theorem non_string_hit_flagged_unredacted (data_json : text) (data : dict)
  (key : text) (value : jvalue) :
  json_loads J data_json = Some (VDict data) ->
  wf_dict data ->
  In (key, value) data ->
  is_str value = false ->
  detect_standalone_pii (VStr (py_str value)) = true ->
  exists rd,
    process_fields data = Ok (rd, true) /\
    process_record J record_id data_json = Ok (json_dumps J (VDict rd), true) /\
    dict_get rd key = Some value.
Proof.
  intros L W Hin Ns D.
  assert (Hit : existsb standalone_hit data = true).
  { apply existsb_exists. exists (key, value). auto. }
  destruct (process_fields_cases data W)
    as [(_ & E) | [(Hit' & _) | (Hit' & _)]]; try congruence.
  exists (map scan_item data). split; [exact E|]. split.
  - unfold process_record. rewrite L, E. reflexivity.
  - apply dict_get_In.
    + unfold wf_dict. rewrite keys_scan. exact W.
    + rewrite <- (scan_item_non_string key value Ns). now apply in_map.
Qed.

End Orchestrator.

(** ** The theorems on sample payloads *)

Lemma malformed_payload_echoed_witness :
  json_loads sample_json (dq (T "{'name': ")) = None /\
  process_record sample_json 7 (dq (T "{'name': "))
    = Ok (dq (T "{'name': "), false).
Proof.
  split; [reflexivity|]. apply malformed_payload_echoed. reflexivity.
Defined.

(** C3, as stated, fails: the payload below is not valid JSON ([NaN] is no
    JSON value), [json.loads] decodes it all the same, and [process_record]
    returns the re-encoded mapping, which differs from the payload. *)
Lemma invalid_json_reencoded_counterexample :
  ~ (valid_json (dq (T "{'x':NaN}")) = false ->
     process_record lenient_json 7 (dq (T "{'x':NaN}"))
       = Ok (dq (T "{'x':NaN}"), false)).
Proof.
  intros H. specialize (H eq_refl). vm_compute in H. discriminate H.
Qed.

Lemma non_object_payload_raises_witness :
  json_loads sample_json (dq (T "[1, 2]")) = Some (VList [VInt 1; VInt 2]) /\
  (forall data, VList [VInt 1; VInt 2] <> VDict data) /\
  process_record sample_json 7 (dq (T "[1, 2]")) = Raise AttributeError.
Proof.
  split; [reflexivity|]. split; [discriminate|].
  apply (non_object_payload_raises _ _ _ (VList [VInt 1; VInt 2]));
    [reflexivity | discriminate].
Defined.

Lemma sample_record_wf :
  wf_dict [(T "phone", VStr (T "9876543210")); (T "city", VStr (T "Pune"))].
Proof.
  unfold wf_dict. simpl. repeat constructor; simpl; intuition discriminate.
Qed.

Lemma process_record_keeps_keys_witness :
  exists rd,
    process_fields
      [(T "phone", VStr (T "9876543210")); (T "city", VStr (T "Pune"))]
      = Ok (rd, true) /\
    dq (T "{'phone': '98XXXXXX10', 'city': 'Pune'}")
      = json_dumps sample_json (VDict rd) /\
    keys rd = [T "phone"; T "city"].
Proof.
  apply (process_record_keeps_keys sample_json 7
           (dq (T "{'phone': '9876543210', 'city': 'Pune'}"))
           [(T "phone", VStr (T "9876543210")); (T "city", VStr (T "Pune"))]
           (dq (T "{'phone': '98XXXXXX10', 'city': 'Pune'}")) true
           eq_refl sample_record_wf).
  reflexivity.
Defined.

Lemma sample_order_wf :
  wf_dict [(T "order", VInt 9876543210); (T "city", VStr (T "Pune"))].
Proof.
  unfold wf_dict. simpl. repeat constructor; simpl; intuition discriminate.
Qed.

Lemma non_string_hit_flagged_unredacted_witness :
  detect_standalone_pii (VStr (py_str (VInt 9876543210))) = true /\
  exists rd,
    process_fields [(T "order", VInt 9876543210); (T "city", VStr (T "Pune"))]
      = Ok (rd, true) /\
    process_record sample_json 7
      (dq (T "{'order': 9876543210, 'city': 'Pune'}"))
      = Ok (json_dumps sample_json (VDict rd), true) /\
    dict_get rd (T "order") = Some (VInt 9876543210).
Proof.
  split; [reflexivity|].
  apply (non_string_hit_flagged_unredacted sample_json 7
           (dq (T "{'order': 9876543210, 'city': 'Pune'}"))
           [(T "order", VInt 9876543210); (T "city", VStr (T "Pune"))]
           (T "order") (VInt 9876543210)
           eq_refl sample_order_wf (or_introl eq_refl) eq_refl eq_refl).
Defined.

(** ** Worked examples *)

Example redact_aadhar :
  redact_value (T "aadhar") (VStr (T "123456789012"))
    = Ok (VStr (T "XXXX XXXX 9012")).
Proof. reflexivity. Qed.

Example redact_passport :
  redact_value (T "passport") (VStr (T "A1234567")) = Ok (VStr (T "AXXXXXXX")).
Proof. reflexivity. Qed.

Example redact_upi :
  redact_value (T "upi_id") (VStr (T "alice@bank.com"))
    = Ok (VStr (T "alXXX@bank.com")).
Proof. reflexivity. Qed.

Example redact_name :
  redact_value (T "name") (VStr (T "John Smith")) = Ok (VStr (T "JXXX SXXX")) /\
  redact_value (T "name") (VStr (T "John")) = Ok (VStr (T "John")).
Proof. split; reflexivity. Qed.

Example redact_address :
  redact_value (T "address") (VStr (T "12 MG Road, Bangalore 560001"))
    = Ok (VStr (T "[REDACTED_ADDRESS], 560001")) /\
  redact_value (T "address") (VStr (T "12 MG Road, Bangalore"))
    = Ok (VStr (T "[REDACTED_ADDRESS]")).
Proof. split; reflexivity. Qed.

Example process_phone_record :
  process_record sample_json 1
    (dq (T "{'phone': '9876543210', 'city': 'Pune'}"))
    = Ok (dq (T "{'phone': '98XXXXXX10', 'city': 'Pune'}"), true).
Proof. reflexivity. Qed.

(** * Further properties of the engine *)

(** ** Digit tokens *)

Lemma digit_token_found_run (n : nat) (s : text) :
  0 < n -> found (search (digit_token n) s) = true -> word_bounded_run n s.
Proof.
  intros Hn F. destruct (found_search _ _ F) as (pre & g & rest & -> & M).
  apply digit_token_matches in M as (L & A & B1 & B2).
  assert (N : g <> []) by (destruct g; simpl in L; [lia | discriminate]).
  unfold at_boundary in *.
  rewrite (word_after_digits g rest N A) in B1.
  rewrite (word_before_digits _ g N A) in B2.
  exists pre, g, rest. repeat split; auto.
  - now destruct (word_before (end_prev None pre)).
  - now destruct (word_after rest).
Qed.

Lemma search_digit_token (n : nat) (s pin : text) :
  0 < n -> search (digit_token n) s = Some pin ->
  length pin = n /\ forallb is_digit pin = true /\
  exists pre post,
    s = pre ++ pin ++ post /\
    word_before (end_prev None pre) = false /\ word_after post = false.
Proof.
  intros Hn E. destruct (search_sound _ _ _ E) as (pre & rest & -> & M).
  apply digit_token_matches in M as (L & A & B1 & B2).
  assert (N : pin <> []) by (destruct pin; simpl in L; [lia | discriminate]).
  unfold at_boundary in *.
  rewrite (word_after_digits pin rest N A) in B1.
  rewrite (word_before_digits _ pin N A) in B2.
  repeat split; auto. exists pre, rest. repeat split.
  - now destruct (word_before (end_prev None pre)).
  - now destruct (word_after rest).
Qed.

Lemma four_ends (s : text) :
  4 <= length s -> exists front a b c d, s = front ++ [a; b; c; d].
Proof.
  intros L. exists (firstn (length s - 4) s).
  pose proof (firstn_skipn (length s - 4) s) as E.
  assert (K : length (skipn (length s - 4) s) = 4)
    by (rewrite length_skipn; lia).
  destruct (skipn (length s - 4) s) as [|a [|b [|c [|d [|e l]]]]];
    simpl in K; try lia.
  exists a, b, c, d. now symmetry.
Qed.

(** ** The national-id rule *)

(** X1: on every text that contains a word-bounded run of exactly 12
    digits, standalone detection fires and the [aadhar] rule returns
    ['XXXX XXXX '] followed by the last four characters of the text. *)
Theorem aadhar_rule_keeps_last_four (s : text) :
  word_bounded_run 12 s ->
  detect_standalone_pii (VStr s) = true /\
  exists front a b c d,
    s = front ++ [a; b; c; d] /\
    redact_value (T "aadhar") (VStr s)
      = Ok (VStr (T "XXXX XXXX " ++ [a; b; c; d])).
Proof.
  intros R.
  assert (F : found (search aadhar_pattern s) = true)
    by (apply run_found; [lia | exact R]).
  split; [simpl; rewrite F; now rewrite !orb_true_r|].
  destruct (four_ends s) as (front & a & b & c & d & ->).
  { pose proof (run_length _ _ R). lia. }
  exists front, a, b, c, d. split; [reflexivity|].
  unfold redact_value.
  change (text_eqb (T "aadhar") (T "phone")) with false.
  change (text_eqb (T "aadhar") (T "aadhar")) with true.
  cbn [andb]. rewrite F.
  assert (E : slice_last 4 (front ++ [a; b; c; d]) = [a; b; c; d])
    by exact (slice_last_ends front [a; b; c; d]).
  now rewrite E.
Qed.

Lemma aadhar_rule_keeps_last_four_witness :
  word_bounded_run 12 (T "id: 123456789012") /\
  detect_standalone_pii (VStr (T "id: 123456789012")) = true /\
  exists front a b c d,
    T "id: 123456789012" = front ++ [a; b; c; d] /\
    redact_value (T "aadhar") (VStr (T "id: 123456789012"))
      = Ok (VStr (T "XXXX XXXX " ++ [a; b; c; d])).
Proof.
  assert (R : word_bounded_run 12 (T "id: 123456789012")).
  { exists (T "id: "), (T "123456789012"), []. repeat split; reflexivity. }
  split; [exact R|]. exact (aadhar_rule_keeps_last_four _ R).
Defined.

(** ** The passport rule *)

Lemma upper_is_word (c : ascii) : is_upper c = true -> is_word c = true.
Proof. each_char c. Qed.

Lemma passport_token_found (s : text) :
  passport_token s -> found (search passport_pattern s) = true.
Proof.
  intros (pre & u & ds & post & -> & U & L & A & Hb & Ha).
  assert (N : ds <> []) by (destruct ds; simpl in L; [lia | discriminate]).
  apply (search_complete passport_pattern pre (u :: ds) post).
  exists [], (u :: ds). repeat split.
  - unfold at_boundary. simpl. now rewrite Hb, (upper_is_word u U).
  - exists [u], ds. repeat split; [simpl; now rewrite U|].
    exists ds, []. rewrite app_nil_r. repeat split; auto.
    unfold at_boundary. cbn [end_prev].
    now rewrite (word_before_digits (Some u) ds N A), Ha.
Qed.

(** X2: on every text that contains a word-bounded passport token (an
    uppercase letter and seven digits), standalone detection fires and the
    [passport] rule returns the first character of the text, wherever the
    token stands, followed by ['XXXXXXX']; it does not fail. *)
Theorem passport_rule_keeps_first_char (s : text) :
  passport_token s ->
  detect_standalone_pii (VStr s) = true /\
  exists c rest,
    s = c :: rest /\
    redact_value (T "passport") (VStr s) = Ok (VStr (c :: T "XXXXXXX")).
Proof.
  intros P. pose proof (passport_token_found s P) as F.
  split; [simpl; rewrite F; now rewrite !orb_true_r|].
  destruct s as [|c rest].
  { destruct P as (pre & u & ds & post & E & _). destruct pre; discriminate. }
  exists c, rest. split; [reflexivity|].
  unfold redact_value.
  change (text_eqb (T "passport") (T "phone")) with false.
  change (text_eqb (T "passport") (T "aadhar")) with false.
  change (text_eqb (T "passport") (T "passport")) with true.
  cbn [andb]. rewrite F. reflexivity.
Qed.

Lemma passport_rule_keeps_first_char_witness :
  passport_token (T "no. A1234567") /\
  redact_value (T "passport") (VStr (T "no. A1234567"))
    = Ok (VStr (T "nXXXXXXX")).
Proof.
  assert (P : passport_token (T "no. A1234567")).
  { exists (T "no. "), "A"%char, (T "1234567"), [].
    repeat split; reflexivity. }
  split; [exact P|].
  destruct (passport_rule_keeps_first_char _ P) as (_ & c & rest & E & R).
  inversion E; subst. exact R.
Defined.

(** ** The email rule *)

Lemma split_once_first (sep : ascii) (u d : text) :
  ~ In sep u -> split_once sep (u ++ sep :: d) = Some (u, d).
Proof.
  induction u as [|c u IH]; intros N; simpl.
  - now rewrite Ascii.eqb_refl.
  - destruct (Ascii.eqb c sep) eqn:E.
    + apply Ascii.eqb_eq in E. subst c. exfalso. apply N. simpl. auto.
    + rewrite IH; [reflexivity|]. intros H. apply N. simpl. auto.
Qed.

Lemma contains_char_false (c : ascii) (s : text) :
  ~ In c s -> contains_char c s = false.
Proof.
  intros N. destruct (contains_char c s) eqn:E; [|reflexivity].
  apply contains_char_In in E. contradiction.
Qed.

(** X3: under the key [email] the value is split at its first ['@']: the
    result is the first two characters of the text before it, ['XXX@'], and
    everything after it unchanged, whatever the rest of the value looks
    like; a value without ['@'] is returned as it is. *)
Theorem email_rule_splits_at_first_at :
  (forall u d, ~ In "@"%char u ->
     redact_value (T "email") (VStr (u ++ "@"%char :: d))
       = Ok (VStr (slice_to 2 u ++ T "XXX@" ++ d))) /\
  (forall s, ~ In "@"%char s ->
     redact_value (T "email") (VStr s) = Ok (VStr s)).
Proof.
  split.
  - intros u d N. unfold redact_value.
    change (text_eqb (T "email") (T "phone")) with false.
    change (text_eqb (T "email") (T "aadhar")) with false.
    change (text_eqb (T "email") (T "passport")) with false.
    change (text_eqb (T "email") (T "upi_id")) with false.
    change (text_eqb (T "email") (T "name")) with false.
    change (text_eqb (T "email") (T "email")) with true.
    cbn [andb].
    assert (At : contains_char "@" (u ++ "@"%char :: d) = true).
    { apply contains_char_In, in_or_app. right. simpl. auto. }
    rewrite At. unfold unpack_split. now rewrite (split_once_first _ u d N).
  - intros s N. unfold redact_value.
    change (text_eqb (T "email") (T "phone")) with false.
    change (text_eqb (T "email") (T "aadhar")) with false.
    change (text_eqb (T "email") (T "passport")) with false.
    change (text_eqb (T "email") (T "upi_id")) with false.
    change (text_eqb (T "email") (T "name")) with false.
    change (text_eqb (T "email") (T "email")) with true.
    change (text_eqb (T "email") (T "address")) with false.
    cbn [andb]. now rewrite (contains_char_false _ _ N).
Qed.

Lemma email_rule_splits_at_first_at_witness :
  ~ In "@"%char (T "j") /\
  redact_value (T "email") (VStr (T "j@x.com@y"))
    = Ok (VStr (T "jXXX@x.com@y")) /\
  ~ In "@"%char (T "none") /\
  redact_value (T "email") (VStr (T "none")) = Ok (VStr (T "none")).
Proof.
  assert (N1 : ~ In "@"%char (T "j")) by (simpl; intuition discriminate).
  assert (N2 : ~ In "@"%char (T "none")) by (simpl; intuition discriminate).
  split; [exact N1|].
  split; [exact (proj1 email_rule_splits_at_first_at (T "j") (T "x.com@y") N1)|].
  split; [exact N2|].
  exact (proj2 email_rule_splits_at_first_at (T "none") N2).
Defined.

(** ** The address rule *)

(** X4: under the key [address] every string is replaced.  When the text
    contains a word-bounded run of exactly six digits the result is the
    placeholder, [', '] and such a run taken from the text; otherwise it is
    the placeholder alone.  Nothing else of the value is kept. *)
Theorem address_rule_always_masks (s : text) :
  (word_bounded_run 6 s ->
   exists pin pre post,
     s = pre ++ pin ++ post /\ length pin = 6 /\
     forallb is_digit pin = true /\
     word_before (end_prev None pre) = false /\ word_after post = false /\
     redact_value (T "address") (VStr s)
       = Ok (VStr (redacted_address ++ T ", " ++ pin))) /\
  (~ word_bounded_run 6 s ->
   redact_value (T "address") (VStr s) = Ok (VStr redacted_address)).
Proof.
  assert (E : redact_value (T "address") (VStr s)
              = match search pin_pattern s with
                | Some pin => Ok (VStr (redacted_address ++ T ", " ++ pin))
                | None => Ok (VStr redacted_address)
                end).
  { unfold redact_value.
    change (text_eqb (T "address") (T "phone")) with false.
    change (text_eqb (T "address") (T "aadhar")) with false.
    change (text_eqb (T "address") (T "passport")) with false.
    change (text_eqb (T "address") (T "upi_id")) with false.
    change (text_eqb (T "address") (T "name")) with false.
    change (text_eqb (T "address") (T "email")) with false.
    change (text_eqb (T "address") (T "address")) with true.
    reflexivity. }
  rewrite E. unfold pin_pattern. split.
  - intros R. pose proof (run_found 6 s ltac:(lia) R) as F.
    destruct (search (digit_token 6) s) as [pin|] eqn:Es; [|discriminate].
    destruct (search_digit_token 6 _ _ ltac:(lia) Es)
      as (L & A & pre & post & Hs & Hb & Ha).
    exists pin, pre, post. repeat split; auto.
  - intros NR. destruct (search (digit_token 6) s) as [pin|] eqn:Es;
      [|reflexivity].
    exfalso. apply NR. apply digit_token_found_run; [lia|].
    now rewrite Es.
Qed.

Lemma address_rule_always_masks_witness :
  word_bounded_run 6 (T "12 MG Road, Pune 411001") /\
  (exists pin pre post,
     T "12 MG Road, Pune 411001" = pre ++ pin ++ post /\ length pin = 6 /\
     forallb is_digit pin = true /\
     word_before (end_prev None pre) = false /\ word_after post = false /\
     redact_value (T "address") (VStr (T "12 MG Road, Pune 411001"))
       = Ok (VStr (redacted_address ++ T ", " ++ pin))) /\
  ~ word_bounded_run 6 (T "") /\
  redact_value (T "address") (VStr (T "")) = Ok (VStr redacted_address).
Proof.
  assert (R : word_bounded_run 6 (T "12 MG Road, Pune 411001")).
  { exists (T "12 MG Road, Pune "), (T "411001"), [].
    repeat split; reflexivity. }
  assert (N : ~ word_bounded_run 6 (T "")).
  { intros H. apply run_length in H. simpl in H. lia. }
  split; [exact R|].
  split; [exact (proj1 (address_rule_always_masks _) R)|].
  split; [exact N|].
  exact (proj2 (address_rule_always_masks _) N).
Defined.

(** ** The name rule *)

Lemma split_ws_aux_head (s : text) :
  forall cur, cur <> [] ->
  exists t parts, split_ws_aux cur s = (rev cur ++ t) :: parts.
Proof.
  induction s as [|c s IH]; intros cur N; simpl.
  - destruct cur; [congruence|]. exists [], []. now rewrite app_nil_r.
  - destruct (is_space c).
    + destruct cur; [congruence|]. exists [], (split_ws_aux [] s).
      now rewrite app_nil_r.
    + destruct (IH (c :: cur)) as (t & parts & E); [discriminate|].
      exists (c :: t), parts. rewrite E. simpl. now rewrite <- app_assoc.
Qed.

(** The first token starts at the first character that is not whitespace. *)
Lemma split_ws_first_token (lead rest : text) (a : ascii) :
  forallb is_space lead = true -> is_space a = false ->
  exists t parts, split_ws (lead ++ a :: rest) = (a :: t) :: parts.
Proof.
  unfold split_ws. induction lead as [|c lead IH]; intros L Na; simpl.
  - rewrite Na. destruct (split_ws_aux_head rest [a]) as (t & parts & E);
      [discriminate|]. exists t, parts. exact E.
  - simpl in L. apply andb_true_iff in L as [Sc L]. rewrite Sc. auto.
Qed.

Lemma split_ws_aux_chars (s : text) :
  forall cur,
  (forall c, In c cur -> is_space c = false) ->
  forall t, In t (split_ws_aux cur s) ->
  forall c, In c t -> is_space c = false /\ (In c cur \/ In c s).
Proof.
  induction s as [|d s IH]; intros cur Hc t Ht c Hin; simpl in Ht.
  - destruct cur as [|e cur]; [destruct Ht|].
    destruct Ht as [<- | []]. apply in_rev in Hin. auto.
  - destruct (is_space d) eqn:Sd.
    + destruct cur as [|e cur].
      * destruct (IH [] ltac:(intros ? []) t Ht c Hin) as [Nc [[] | H]].
        split; [exact Nc | right; now right].
      * destruct Ht as [<- | Ht]; [apply in_rev in Hin; auto|].
        destruct (IH [] ltac:(intros ? []) t Ht c Hin) as [Nc [[] | H]].
        split; [exact Nc | right; now right].
    + assert (Hc' : forall x, In x (d :: cur) -> is_space x = false).
      { intros x [<- | Hx]; auto. }
      destruct (IH (d :: cur) Hc' t Ht c Hin) as [Nc [[<- | H] | H]];
        split; auto; right; simpl; auto.
Qed.

(** X5: under the key [name], a value that contains a space and at least
    one character that is not whitespace becomes nine characters: the first
    non-whitespace character of the value, ['XXX'], a space, the first
    character of the last token and ['XXX'].  The rule does not fail on such
    a value. *)
Theorem name_rule_initials (lead rest : text) (a : ascii) :
  forallb is_space lead = true -> is_space a = false ->
  In " "%char (lead ++ a :: rest) ->
  exists b,
    In b (a :: rest) /\ is_space b = false /\
    redact_value (T "name") (VStr (lead ++ a :: rest))
      = Ok (VStr (a :: T "XXX " ++ b :: T "XXX")).
Proof.
  intros L Na Sp.
  destruct (split_ws_first_token lead rest a L Na) as (t & parts & E).
  destruct (last_item_In ((a :: t) :: parts)) as (tail & El & Hin);
    [discriminate|].
  pose proof (split_ws_aux_tokens (lead ++ a :: rest) []) as Tk.
  fold (split_ws (lead ++ a :: rest)) in Tk. rewrite E in Tk.
  rewrite Forall_forall in Tk. pose proof (Tk tail Hin) as Nt.
  destruct tail as [|b tail]; [congruence|].
  exists b.
  assert (Hb : is_space b = false /\ (In b [] \/ In b (lead ++ a :: rest))).
  { apply (split_ws_aux_chars (lead ++ a :: rest) [] ltac:(intros ? [])
             (b :: tail)).
    - fold (split_ws (lead ++ a :: rest)). rewrite E. exact Hin.
    - simpl. auto. }
  destruct Hb as [Nb [[] | Hb]].
  split; [|split; [exact Nb|]].
  - apply in_app_or in Hb as [Hb | Hb]; [|exact Hb].
    rewrite forallb_forall in L. rewrite (L b Hb) in Nb. discriminate.
  - unfold redact_value.
    change (text_eqb (T "name") (T "phone")) with false.
    change (text_eqb (T "name") (T "aadhar")) with false.
    change (text_eqb (T "name") (T "passport")) with false.
    change (text_eqb (T "name") (T "upi_id")) with false.
    change (text_eqb (T "name") (T "name")) with true.
    cbn [andb]. apply contains_char_In in Sp. rewrite Sp, E.
    cbn [first_item bind]. unfold text. rewrite El. reflexivity.
Qed.

Lemma name_rule_initials_witness :
  forallb is_space (T " ") = true /\ is_space "J" = false /\
  In " "%char (T " " ++ "J"%char :: T "ohn Q Smith") /\
  exists b,
    In b ("J"%char :: T "ohn Q Smith") /\ is_space b = false /\
    redact_value (T "name") (VStr (T " " ++ "J"%char :: T "ohn Q Smith"))
      = Ok (VStr ("J"%char :: T "XXX " ++ b :: T "XXX")).
Proof.
  assert (Sp : In " "%char (T " " ++ "J"%char :: T "ohn Q Smith"))
    by (simpl; auto).
  split; [reflexivity|]. split; [reflexivity|]. split; [exact Sp|].
  exact (name_rule_initials (T " ") (T "ohn Q Smith") "J" eq_refl eq_refl Sp).
Defined.

(** X6: [redact_value] raises in exactly one situation: the key is [name]
    and the value is a string that contains a space and consists of
    whitespace only.  The exception is then [IndexError]. *)
Theorem redact_value_fails_iff (key : text) (value : jvalue) :
  (exists e, redact_value key value = Raise e) <->
  key = T "name" /\
  exists s, value = VStr s /\ In " "%char s /\ forallb is_space s = true.
Proof.
  split.
  - intros (e & H).
    apply redact_value_raises in H as (_ & -> & s & -> & Sp & A).
    split; [reflexivity|]. exists s. rewrite <- contains_char_In. auto.
  - intros (-> & s & -> & Sp & A). exists IndexError.
    apply redact_value_blank_name; [now apply contains_char_In | exact A].
Qed.

Lemma redact_value_fails_iff_witness :
  (exists e, redact_value (T "name") (VStr (T "  ")) = Raise e).
Proof.
  apply (proj2 (redact_value_fails_iff (T "name") (VStr (T "  ")))).
  split; [reflexivity|]. exists (T "  ").
  repeat split; simpl; auto.
Defined.

(** ** What standalone detection needs *)

Lemma digit_token_found_digit (n : nat) (s : text) :
  0 < n -> found (search (digit_token n) s) = true ->
  exists c, In c s /\ is_digit c = true.
Proof.
  intros Hn F. destruct (found_search _ _ F) as (pre & g & rest & -> & M).
  apply digit_token_matches in M as (L & A & _).
  destruct g as [|c g]; [simpl in L; lia|]. simpl in A.
  apply andb_true_iff in A as [Dc _]. exists c. split; [|exact Dc].
  apply in_or_app. right. simpl. auto.
Qed.

Lemma passport_found_digit (s : text) :
  found (search passport_pattern s) = true ->
  exists c, In c s /\ is_digit c = true.
Proof.
  intros F. destruct (found_search _ _ F) as (pre & g & rest & -> & M).
  simpl in M.
  destruct M as (w1 & w2 & -> & _ & w3 & w4 & -> & _ & w5 & w6 & -> & [L A] & _).
  destruct w5 as [|c w5]; [discriminate|]. simpl in A.
  apply andb_true_iff in A as [Dc _]. exists c. split; [|exact Dc].
  apply in_or_app. right. apply in_or_app. left.
  apply in_or_app. right. apply in_or_app. right. simpl. auto.
Qed.

(** X7: a text with no decimal digit and no ['@'] is never standalone
    PII: each of the four patterns needs one of them. *)
Theorem standalone_needs_digit_or_at (s : text) :
  (forall c, In c s -> is_digit c = false) ->
  ~ In "@"%char s ->
  detect_standalone_pii (VStr s) = false.
Proof.
  intros Nd Na.
  assert (D : forall c, In c s /\ is_digit c = true -> False).
  { intros c [Hin Dc]. rewrite (Nd c Hin) in Dc. discriminate. }
  simpl. rewrite !orb_false_iff. repeat split.
  - destruct (found (search phone_pattern s)) eqn:F; [|reflexivity].
    destruct (digit_token_found_digit 10 s ltac:(lia) F) as (c & H).
    destruct (D c H).
  - destruct (found (search aadhar_pattern s)) eqn:F; [|reflexivity].
    destruct (digit_token_found_digit 12 s ltac:(lia) F) as (c & H).
    destruct (D c H).
  - destruct (found (search passport_pattern s)) eqn:F; [|reflexivity].
    destruct (passport_found_digit s F) as (c & H). destruct (D c H).
  - destruct (found (search upi_pattern s)) eqn:F; [|reflexivity].
    destruct (Na (upi_found_has_at s F)).
Qed.

Lemma standalone_needs_digit_or_at_witness :
  detect_standalone_pii (VStr (T "Jane Doe, MG Road")) = false.
Proof.
  apply standalone_needs_digit_or_at.
  - intros c Hin. simpl in Hin.
    repeat (destruct Hin as [<- | Hin]; [reflexivity|]). destruct Hin.
  - simpl. intuition discriminate.
Defined.

(** X8: a text made of decimal digits only is standalone PII exactly when
    it has 10 or 12 digits. *)
Theorem digit_text_detected_iff (s : text) :
  forallb is_digit s = true ->
  detect_standalone_pii (VStr s)
    = ((length s =? 10)%nat || (length s =? 12)%nat).
Proof.
  intros A.
  assert (W : forall n, 0 < n -> length s = n -> word_bounded_run n s).
  { intros n Hn L. exists [], s, []. rewrite app_nil_r. auto. }
  assert (P : forall n, 0 < n ->
              found (search (digit_token n) s) = (length s =? n)%nat).
  { intros n Hn. destruct (length s =? n)%nat eqn:E.
    - apply Nat.eqb_eq in E. apply run_found; auto.
    - apply Nat.eqb_neq in E.
      destruct (found (search (digit_token n) s)) eqn:F; [|reflexivity].
      destruct E. now apply digits_found_length. }
  simpl. unfold phone_pattern, aadhar_pattern.
  rewrite (P 10), (P 12), (digits_no_passport s A), (digits_no_upi s A);
    try lia.
  now rewrite !orb_false_r.
Qed.

Lemma digit_text_detected_iff_witness :
  forallb is_digit (T "123456789012") = true /\
  detect_standalone_pii (VStr (T "123456789012"))
    = ((length (T "123456789012") =? 10)%nat
       || (length (T "123456789012") =? 12)%nat).
Proof.
  split; [reflexivity|]. apply digit_text_detected_iff. reflexivity.
Defined.

(** ** Email addresses are standalone PII *)

Lemma word_before_all_word (p : option ascii) (w : text) :
  w <> [] -> forallb is_word w = true -> word_before (end_prev p w) = true.
Proof.
  intros N A. destruct w as [|c w]; [congruence|].
  destruct (end_prev_cons_some p c w) as (d & -> & Hin).
  simpl. rewrite forallb_forall in A. auto.
Qed.

Lemma word_is_handle (c : ascii) : is_word c = true -> is_handle c = true.
Proof. unfold is_handle. now intros ->. Qed.

Lemma email_shaped_found (s : text) :
  email_shaped s -> found (search upi_pattern s) = true.
Proof.
  intros (a & u & d & t & -> & Wa & Au & Nd & Ad & Nt & At).
  set (w := a :: u ++ "@"%char :: d ++ "."%char :: t).
  rewrite <- (app_nil_r w). apply (search_complete upi_pattern [] w []).
  subst w. left. cbn [end_prev].
  exists [], (a :: u ++ "@"%char :: d ++ "."%char :: t). repeat split.
  { unfold at_boundary. simpl. now rewrite Wa. }
  exists (a :: u), ("@"%char :: d ++ "."%char :: t).
  repeat split; [discriminate | |].
  { simpl. now rewrite (word_is_handle a Wa), Au. }
  exists ["@"%char], (d ++ "."%char :: t). repeat split.
  exists d, ("."%char :: t). repeat split; auto.
  exists ["."%char], t. repeat split.
  exists t, []. rewrite app_nil_r. repeat split; auto.
  unfold at_boundary. now rewrite (word_before_all_word _ t Nt At).
Qed.

(** X9: a value that is, as a whole, of the shape [local@domain.tld] is
    standalone PII: the payment-handle pattern matches every such email
    address. *)
Theorem email_address_is_standalone_pii (s : text) :
  email_shaped s -> detect_standalone_pii (VStr s) = true.
Proof.
  intros H. simpl. rewrite (email_shaped_found s H). now rewrite !orb_true_r.
Qed.

Lemma email_address_is_standalone_pii_witness :
  email_shaped (T "jane@x.com") /\
  detect_standalone_pii (VStr (T "jane@x.com")) = true.
Proof.
  assert (H : email_shaped (T "jane@x.com")).
  { exists "j"%char, (T "ane"), (T "x"), (T "com").
    repeat split; try reflexivity; discriminate. }
  split; [exact H|]. exact (email_address_is_standalone_pii _ H).
Defined.

(** ** More on the combinatorial rule *)

Lemma existsb_perm {A : Type} (f : A -> bool) (l l' : list A) :
  Permutation l l' -> existsb f l = existsb f l'.
Proof.
  induction 1 as [ | x l l' _ IH | x y l | l l' l'' _ IH1 _ IH2 ]; simpl.
  - reflexivity.
  - now rewrite IH.
  - now destruct (f x), (f y).
  - now rewrite IH1.
Qed.

(** X10: the combinatorial decision does not depend on the order of the
    fields of the mapping. *)
Theorem combinatorial_order_irrelevant (data data' : dict) :
  Permutation data data' ->
  detect_combinatorial_pii data = detect_combinatorial_pii data'.
Proof.
  intros P. rewrite !detect_signal_count.
  unfold flag_count_of, flag_name_of, flag_email_of, flag_address_of,
    flag_device_ip_of, holds.
  now rewrite !(existsb_perm _ data data' P).
Qed.

Lemma combinatorial_order_irrelevant_witness :
  detect_combinatorial_pii
    [(T "email", VStr (T "a@b")); (T "name", VStr (T "Jane Doe"))]
  = detect_combinatorial_pii
      [(T "name", VStr (T "Jane Doe")); (T "email", VStr (T "a@b"))].
Proof. apply combinatorial_order_irrelevant. apply perm_swap. Defined.

(** X11: the combinatorial rule fires only on a mapping with two fields of
    different names, both holding strings and both named among [name],
    [email], [address], [device_id], [ip_address], and not both device
    fields. *)
Theorem combinatorial_needs_two_fields (data : dict) :
  detect_combinatorial_pii data = true ->
  exists k1 s1 k2 s2,
    In (k1, VStr s1) data /\ In (k2, VStr s2) data /\ k1 <> k2 /\
    key_in k1 quasi_keys = true /\ key_in k2 quasi_keys = true /\
    key_in k1 device_keys && key_in k2 device_keys = false.
Proof.
  rewrite detect_signal_count. unfold flag_count_of. intros H.
  apply Nat.leb_le in H.
  assert (Hn : flag_name_of data = true ->
               exists s, In (T "name", VStr s) data).
  { unfold flag_name_of. rewrite holds_In. intros (s & Hin & _). eauto. }
  assert (He : flag_email_of data = true ->
               exists s, In (T "email", VStr s) data).
  { unfold flag_email_of. rewrite holds_In. intros (s & Hin & _). eauto. }
  assert (Ha : flag_address_of data = true ->
               exists s, In (T "address", VStr s) data).
  { unfold flag_address_of. rewrite holds_In. intros (s & Hin & _). eauto. }
  assert (Hd : flag_device_ip_of data = true ->
               exists s, In (T "device_id", VStr s) data \/
                         In (T "ip_address", VStr s) data).
  { unfold flag_device_ip_of. rewrite orb_true_iff, !holds_In.
    intros [(s & Hin & _) | (s & Hin & _)]; eauto. }
  destruct (flag_name_of data), (flag_email_of data), (flag_address_of data),
    (flag_device_ip_of data); simpl in H; try lia;
    try (destruct (Hn eq_refl) as (sn & In_n));
    try (destruct (He eq_refl) as (se & In_e));
    try (destruct (Ha eq_refl) as (sa & In_a));
    try (destruct (Hd eq_refl) as (sd & [In_d | In_d]));
    match goal with
    | H1 : In (?k1, VStr ?s1) data, H2 : In (?k2, VStr ?s2) data |- _ =>
        assert_fails (unify k1 k2);
        exists k1, s1, k2, s2;
        repeat split; try assumption; try reflexivity;
        intros E; apply text_eqb_eq in E; discriminate E
    end.
Qed.

Lemma combinatorial_needs_two_fields_witness :
  exists k1 s1 k2 s2,
    In (k1, VStr s1) [(T "name", VStr (T "Jane Doe")); (T "email", VStr (T "a@b"))] /\
    In (k2, VStr s2) [(T "name", VStr (T "Jane Doe")); (T "email", VStr (T "a@b"))] /\
    k1 <> k2 /\
    key_in k1 quasi_keys = true /\ key_in k2 quasi_keys = true /\
    key_in k1 device_keys && key_in k2 device_keys = false.
Proof. apply combinatorial_needs_two_fields. reflexivity. Defined.

(** X12: [device_id] and [ip_address] feed one signal.  A mapping whose
    fields are all named [device_id] or [ip_address] is never
    combinatorial PII, whatever the values. *)
Theorem device_fields_count_once (data : dict) :
  (forall key, In key (keys data) -> key_in key device_keys = true) ->
  detect_combinatorial_pii data = false.
Proof.
  intros H.
  assert (N : forall key p, key_in key device_keys = false ->
                            holds data key p = false).
  { intros key p Nk. destruct (holds data key p) eqn:E; [|reflexivity].
    apply holds_In in E as (s & Hin & _).
    rewrite (H key) in Nk; [discriminate|].
    change key with (fst (key, VStr s)). now apply in_map. }
  rewrite detect_signal_count.
  unfold flag_count_of, flag_name_of, flag_email_of, flag_address_of.
  rewrite !N by reflexivity.
  now destruct (flag_device_ip_of data).
Qed.

Lemma device_fields_count_once_witness :
  detect_combinatorial_pii
    [(T "device_id", VStr (T "d1")); (T "ip_address", VStr (T "10.0.0.1"))]
  = false.
Proof.
  apply device_fields_count_once. intros key Hin. simpl in Hin.
  destruct Hin as [<- | [<- | []]]; reflexivity.
Defined.

Lemma holds_strings (data : dict) (key : text) (p : text -> bool) :
  holds (filter (fun item => is_str (snd item)) data) key p = holds data key p.
Proof.
  unfold holds. induction data as [|[k v] data IH]; [reflexivity|].
  cbn [filter snd]. destruct v; cbn [is_str existsb]; rewrite ?IH;
    unfold item_holds; cbn [fst snd]; rewrite ?andb_false_r; reflexivity.
Qed.

(** X13: fields that do not hold a string play no part in the
    combinatorial rule: dropping them from the mapping does not change the
    decision. *)
Theorem combinatorial_ignores_non_strings (data : dict) :
  detect_combinatorial_pii data
  = detect_combinatorial_pii (filter (fun item => is_str (snd item)) data).
Proof.
  rewrite !detect_signal_count.
  unfold flag_count_of, flag_name_of, flag_email_of, flag_address_of,
    flag_device_ip_of.
  now rewrite !holds_strings.
Qed.

(** ** What [process_record] does to each field *)

Lemma key_in_false (key : text) (l : list text) (k : text) :
  key_in key l = false -> In k l -> text_eqb key k = false.
Proof.
  unfold key_in. intros H Hin.
  destruct (text_eqb key k) eqn:E; [|reflexivity].
  assert (X : existsb (text_eqb key) l = true)
    by (apply existsb_exists; eauto).
  congruence.
Qed.

Lemma redact_value_unknown_key (key : text) (value : jvalue) :
  key_in key rule_keys = false -> redact_value key value = Ok value.
Proof.
  intros H. destruct value; try reflexivity. unfold redact_value.
  rewrite (key_in_false _ _ (T "phone") H),
    (key_in_false _ _ (T "aadhar") H), (key_in_false _ _ (T "passport") H),
    (key_in_false _ _ (T "upi_id") H), (key_in_false _ _ (T "name") H),
    (key_in_false _ _ (T "email") H), (key_in_false _ _ (T "address") H);
    try reflexivity; simpl; auto 10.
Qed.

Lemma reredact_ok (todo : dict) :
  forall done rd, NoDup (keys (done ++ todo)) ->
  reredact (seq (length done) (length todo)) (done ++ todo) = Ok rd ->
  rd = done ++ map requasi_item todo /\
  (forall item, In item todo -> key_in (fst item) quasi_keys = true ->
     exists v, redact_value (fst item) (snd item) = Ok v).
Proof.
  induction todo as [|[key value] todo IH]; intros done rd W H.
  - simpl in H. inversion H. simpl. split; [reflexivity | intros ? []].
  - cbn [length seq reredact] in H. rewrite nth_error_middle in H.
    assert (N : ~ In key (keys done)).
    { rewrite keys_app in W. exact (no_dup_middle _ _ _ W). }
    assert (Step : forall v,
      reredact (seq (S (length done)) (length todo))
               (done ++ (key, v) :: todo) = Ok rd ->
      rd = done ++ (key, v) :: map requasi_item todo /\
      (forall item, In item todo -> key_in (fst item) quasi_keys = true ->
         exists v', redact_value (fst item) (snd item) = Ok v')).
    { intros v Hv. destruct (IH (done ++ [(key, v)]) rd) as [E F].
      - rewrite <- app_assoc. simpl.
        rewrite keys_app in *. simpl in *. exact W.
      - rewrite length_app, Nat.add_1_r, <- app_assoc. exact Hv.
      - split; [|exact F]. now rewrite <- app_assoc in E. }
    cbn [map]. unfold requasi_item at 1. cbn [fst snd].
    destruct (key_in key quasi_keys) eqn:Q.
    + destruct (redact_value key value) as [v|e] eqn:R; cbn [bind] in H;
        [|discriminate].
      rewrite (dict_set_middle _ _ _ _ _ N) in H.
      destruct (Step v H) as [E F]. split; [exact E|].
      intros item [<- | Hin] Hq; [cbn [fst snd]; eauto | auto].
    + destruct (Step value H) as [E F]. split; [exact E|].
      intros item [<- | Hin] Hq; [cbn [fst] in Hq; congruence | auto].
Qed.

Lemma blank_name_In (data : dict) :
  blank_name data = true ->
  exists s, In (T "name", VStr s) data /\
            contains_char " " s = true /\ forallb is_space s = true.
Proof.
  unfold blank_name. rewrite holds_In. intros (s & Hin & P).
  apply andb_true_iff in P. exists s. tauto.
Qed.

(** The outcome of lines 77 to 92 on a mapping, case by case. *)
Lemma process_fields_spec (data : dict) :
  wf_dict data ->
  process_fields data =
  if existsb standalone_hit data then Ok (map scan_item data, true)
  else if detect_combinatorial_pii data then
         if blank_name data then Raise IndexError
         else Ok (map requasi_item data, true)
       else Ok (data, false).
Proof.
  intros W. unfold process_fields.
  rewrite (scan_fields_ok data false []); [|exact W].
  cbn [bind app orb].
  destruct (existsb standalone_hit data) eqn:Hit; cbn [negb andb];
    [reflexivity|].
  rewrite (scan_no_hit data Hit).
  destruct (detect_combinatorial_pii data); [|reflexivity].
  destruct (reredact (seq 0 (length data)) data) as [rd|e] eqn:R; cbn [bind].
  - destruct (reredact_ok data [] rd W R) as [-> F]. simpl.
    destruct (blank_name data) eqn:B; [|reflexivity].
    destruct (blank_name_In data B) as (s & Hin & Sp & A).
    destruct (F _ Hin eq_refl) as (v & E). cbn [fst snd] in E.
    rewrite (redact_value_blank_name s Sp A) in E. discriminate.
  - destruct (reredact_raises data [] e W R) as [-> ->]. reflexivity.
Qed.

Lemma dict_get_map (f : text * jvalue -> text * jvalue) (data : dict)
  (key : text) (value : jvalue) :
  (forall item, fst (f item) = fst item) ->
  wf_dict data -> In (key, value) data ->
  dict_get (map f data) key = Some (snd (f (key, value))).
Proof.
  intros Hf W Hin. apply dict_get_In.
  - unfold wf_dict, keys. rewrite map_map.
    rewrite (map_ext _ fst Hf). exact W.
  - replace (key, snd (f (key, value))) with (f (key, value)).
    + now apply in_map.
    + specialize (Hf (key, value)). destruct (f (key, value)).
      simpl in *. now subst.
Qed.

Section Records.

Variable J : json_module.
Variable record_id : Z.
Variable data_json : text.
Variable data : dict.
Hypothesis decoded : json_loads J data_json = Some (VDict data).
Hypothesis unique_keys : wf_dict data.

Lemma process_record_decoded :
  process_record J record_id data_json =
  match process_fields data with
  | Ok (rd, flag) => Ok (json_dumps J (VDict rd), flag)
  | Raise e => Raise e
  end.
Proof.
  unfold process_record. rewrite decoded.
  destruct (process_fields data) as [[rd flag]|e]; reflexivity.
Qed.

(** X14: when [process_record] returns on a decoded mapping, the flag is
    true exactly when some field's stringified value matches a standalone
    pattern or the combinatorial rule fires; with the flag false the
    re-encoded mapping is the decoded mapping itself. *)
Theorem flag_meaning (out : text) (flag : bool) :
  process_record J record_id data_json = Ok (out, flag) ->
  flag = existsb standalone_hit data || detect_combinatorial_pii data /\
  (flag = false -> out = json_dumps J (VDict data)).
Proof.
  rewrite process_record_decoded, (process_fields_spec data unique_keys).
  destruct (existsb standalone_hit data); cbn [orb].
  - intros H. inversion H. split; [reflexivity | discriminate].
  - destruct (detect_combinatorial_pii data).
    + destruct (blank_name data); [discriminate|].
      intros H. inversion H. split; [reflexivity | discriminate].
    + intros H. inversion H. auto.
Qed.

(** X15: on a decoded mapping [process_record] raises exactly when no
    field is a standalone hit, the combinatorial rule fires and the field
    [name] holds a whitespace-only string with a space; the exception is
    [IndexError]. *)
Theorem process_record_fails_iff :
  (forall e, process_record J record_id data_json = Raise e ->
             e = IndexError) /\
  (process_record J record_id data_json = Raise IndexError <->
   existsb standalone_hit data = false /\
   detect_combinatorial_pii data = true /\
   blank_name data = true).
Proof.
  rewrite process_record_decoded, (process_fields_spec data unique_keys).
  destruct (existsb standalone_hit data), (detect_combinatorial_pii data),
    (blank_name data); split;
    try (intros e H; congruence);
    split; try (intros H; discriminate H);
    try (intros (H1 & H2 & H3); discriminate); auto.
Qed.

(** X16: when some field is a standalone hit, no combinatorial redaction
    takes place: the record is flagged and every field that is not itself a
    hit comes back with its value unchanged, the quasi-identifier fields
    included. *)
Theorem standalone_hit_skips_combinatorial_pass :
  existsb standalone_hit data = true ->
  exists rd,
    process_record J record_id data_json
      = Ok (json_dumps J (VDict rd), true) /\
    keys rd = keys data /\
    forall key value, In (key, value) data ->
      standalone_hit (key, value) = false ->
      dict_get rd key = Some value.
Proof.
  intros Hit. exists (map scan_item data).
  rewrite process_record_decoded, (process_fields_spec data unique_keys), Hit.
  split; [reflexivity|]. split; [apply keys_scan|].
  intros key value Hin Nh.
  rewrite (dict_get_map scan_item data key value); auto.
  unfold scan_item. now rewrite Nh.
Qed.

(** X17: when no field is a standalone hit, the combinatorial rule fires
    and there is no blank name, the record is flagged, every field named
    [name], [email], [address], [device_id] or [ip_address] holds the result
    of [redact_value] on its value, and every other field is unchanged. *)
Theorem combinatorial_pass_redacts_quasi_fields :
  existsb standalone_hit data = false ->
  detect_combinatorial_pii data = true ->
  blank_name data = false ->
  exists rd,
    process_record J record_id data_json
      = Ok (json_dumps J (VDict rd), true) /\
    forall key value, In (key, value) data ->
      if key_in key quasi_keys
      then exists v, redact_value key value = Ok v /\
                     dict_get rd key = Some v
      else dict_get rd key = Some value.
Proof.
  intros Hit Comb Blank. exists (map requasi_item data).
  pose proof (process_fields_spec data unique_keys) as E.
  rewrite Hit, Comb, Blank in E.
  rewrite process_record_decoded, E. split; [reflexivity|].
  intros key value Hin.
  rewrite (dict_get_map requasi_item data key value); auto.
  unfold requasi_item. cbn [fst snd].
  destruct (key_in key quasi_keys) eqn:Q; [|reflexivity].
  destruct (redact_value key value) as [v|e] eqn:R; [eauto|].
  apply redact_value_raises in R as (_ & -> & s & -> & Sp & A).
  assert (B : blank_name data = true).
  { apply holds_In. exists s. split; [exact Hin|]. now rewrite Sp, A. }
  congruence.
Qed.

(** X18: a field whose name has no masking rule (any name other than
    [phone], [aadhar], [passport], [upi_id], [name], [email], [address]) is
    never modified: whatever [process_record] returns holds the field's
    decoded value, also when that value is what flagged the record. *)
Theorem unknown_field_never_redacted (key : text) (value : jvalue)
  (out : text) (flag : bool) :
  In (key, value) data ->
  key_in key rule_keys = false ->
  process_record J record_id data_json = Ok (out, flag) ->
  exists rd,
    out = json_dumps J (VDict rd) /\ keys rd = keys data /\
    dict_get rd key = Some value.
Proof.
  intros Hin Nk.
  pose proof (redact_value_unknown_key key value Nk) as R.
  rewrite process_record_decoded, (process_fields_spec data unique_keys).
  destruct (existsb standalone_hit data).
  - intros H. inversion H. exists (map scan_item data).
    repeat split; [apply keys_scan|].
    rewrite (dict_get_map scan_item data key value); auto.
    unfold scan_item. cbn [fst snd]. rewrite R.
    now destruct (standalone_hit (key, value)).
  - destruct (detect_combinatorial_pii data).
    + destruct (blank_name data); [discriminate|].
      intros H. inversion H. exists (map requasi_item data).
      repeat split.
      * unfold keys. rewrite map_map. reflexivity.
      * rewrite (dict_get_map requasi_item data key value); auto.
        unfold requasi_item. cbn [fst snd]. rewrite R.
        now destruct (key_in key quasi_keys).
    + intros H. inversion H. exists data. repeat split.
      now apply dict_get_In.
Qed.

(** X19: end to end, a field [phone] whose text contains a word-bounded
    10-digit token flags the record and comes back as [v[:2] + 'XXXXXX' +
    v[-2:]]. *)
Theorem phone_field_masked_end_to_end (v : text) :
  In (T "phone", VStr v) data ->
  word_bounded_run 10 v ->
  exists rd,
    process_record J record_id data_json
      = Ok (json_dumps J (VDict rd), true) /\
    dict_get rd (T "phone")
      = Some (VStr (slice_to 2 v ++ T "XXXXXX" ++ slice_last 2 v)).
Proof.
  intros Hin R.
  assert (F : found (search phone_pattern v) = true)
    by (apply run_found; [lia | exact R]).
  assert (D : detect_standalone_pii (VStr v) = true)
    by (simpl; now rewrite F).
  assert (Hit : existsb standalone_hit data = true).
  { apply existsb_exists. exists (T "phone", VStr v). auto. }
  exists (map scan_item data).
  rewrite process_record_decoded, (process_fields_spec data unique_keys), Hit.
  split; [reflexivity|].
  rewrite (dict_get_map scan_item data (T "phone") (VStr v)); auto.
  unfold scan_item, standalone_hit. cbn [fst snd py_str]. rewrite D.
  unfold redact_value. rewrite text_eqb_refl, F. reflexivity.
Qed.

End Records.

(** ** The record theorems on sample payloads *)

Lemma sample_pair_wf :
  wf_dict [(T "name", VStr (T "Jane Doe")); (T "email", VStr (T "jane@x.com"))].
Proof.
  unfold wf_dict. simpl. repeat constructor; simpl; intuition discriminate.
Qed.

Lemma sample_blank_wf :
  wf_dict [(T "name", VStr (T " ")); (T "email", VStr (T "a@b"));
           (T "device_id", VStr (T "d1"))].
Proof.
  unfold wf_dict. simpl. repeat constructor; simpl; intuition discriminate.
Qed.

Lemma sample_address_wf :
  wf_dict [(T "name", VStr (T "Jane Doe")); (T "address", VStr (T "12 MG Road"))].
Proof.
  unfold wf_dict. simpl. repeat constructor; simpl; intuition discriminate.
Qed.

Lemma sample_contact_wf : wf_dict [(T "contact", VStr (T "9876543210"))].
Proof.
  unfold wf_dict. simpl. repeat constructor; simpl; intuition discriminate.
Qed.

Lemma flag_meaning_witness :
  true = existsb standalone_hit
           [(T "phone", VStr (T "9876543210")); (T "city", VStr (T "Pune"))]
         || detect_combinatorial_pii
              [(T "phone", VStr (T "9876543210")); (T "city", VStr (T "Pune"))].
Proof.
  exact (proj1 (flag_meaning sample_json 7
                  (dq (T "{'phone': '9876543210', 'city': 'Pune'}"))
                  [(T "phone", VStr (T "9876543210"));
                   (T "city", VStr (T "Pune"))]
                  eq_refl sample_record_wf
                  (dq (T "{'phone': '98XXXXXX10', 'city': 'Pune'}")) true
                  eq_refl)).
Defined.

Lemma process_record_fails_iff_witness :
  process_record sample_json 7
    (dq (T "{'name': ' ', 'email': 'a@b', 'device_id': 'd1'}"))
  = Raise IndexError.
Proof.
  apply (proj2 (process_record_fails_iff sample_json 7
                  (dq (T "{'name': ' ', 'email': 'a@b', 'device_id': 'd1'}"))
                  [(T "name", VStr (T " ")); (T "email", VStr (T "a@b"));
                   (T "device_id", VStr (T "d1"))]
                  eq_refl sample_blank_wf)).
  repeat split; reflexivity.
Defined.

Lemma standalone_hit_skips_combinatorial_pass_witness :
  exists rd,
    process_record sample_json 7
      (dq (T "{'name': 'Jane Doe', 'email': 'jane@x.com'}"))
      = Ok (json_dumps sample_json (VDict rd), true) /\
    dict_get rd (T "name") = Some (VStr (T "Jane Doe")).
Proof.
  destruct (standalone_hit_skips_combinatorial_pass sample_json 7
              (dq (T "{'name': 'Jane Doe', 'email': 'jane@x.com'}"))
              [(T "name", VStr (T "Jane Doe"));
               (T "email", VStr (T "jane@x.com"))]
              eq_refl sample_pair_wf eq_refl) as (rd & E & _ & H).
  exists rd. split; [exact E|].
  apply H; [simpl; auto | reflexivity].
Defined.

Lemma combinatorial_pass_redacts_quasi_fields_witness :
  exists rd,
    process_record more_json 7
      (dq (T "{'name': 'Jane Doe', 'address': '12 MG Road'}"))
      = Ok (json_dumps more_json (VDict rd), true) /\
    exists v, redact_value (T "address") (VStr (T "12 MG Road")) = Ok v /\
              dict_get rd (T "address") = Some v.
Proof.
  destruct (combinatorial_pass_redacts_quasi_fields more_json 7
              (dq (T "{'name': 'Jane Doe', 'address': '12 MG Road'}"))
              [(T "name", VStr (T "Jane Doe"));
               (T "address", VStr (T "12 MG Road"))]
              eq_refl sample_address_wf eq_refl eq_refl eq_refl)
    as (rd & E & H).
  exists rd. split; [exact E|].
  exact (H (T "address") (VStr (T "12 MG Road")) (or_intror (or_introl eq_refl))).
Defined.

Lemma unknown_field_never_redacted_witness :
  exists rd,
    dq (T "{'contact': '9876543210'}") = json_dumps more_json (VDict rd) /\
    keys rd = [T "contact"] /\
    dict_get rd (T "contact") = Some (VStr (T "9876543210")).
Proof.
  exact (unknown_field_never_redacted more_json 7
           (dq (T "{'contact': '9876543210'}"))
           [(T "contact", VStr (T "9876543210"))]
           eq_refl sample_contact_wf
           (T "contact") (VStr (T "9876543210"))
           (dq (T "{'contact': '9876543210'}")) true
           (or_introl eq_refl) eq_refl eq_refl).
Defined.

Lemma phone_field_masked_end_to_end_witness :
  exists rd,
    process_record sample_json 7
      (dq (T "{'phone': '9876543210', 'city': 'Pune'}"))
      = Ok (json_dumps sample_json (VDict rd), true) /\
    dict_get rd (T "phone")
      = Some (VStr (slice_to 2 (T "9876543210") ++ T "XXXXXX"
                    ++ slice_last 2 (T "9876543210"))).
Proof.
  apply (phone_field_masked_end_to_end sample_json 7
           (dq (T "{'phone': '9876543210', 'city': 'Pune'}"))
           [(T "phone", VStr (T "9876543210")); (T "city", VStr (T "Pune"))]
           eq_refl sample_record_wf (T "9876543210") (or_introl eq_refl)).
  exists [], (T "9876543210"), []. repeat split; reflexivity.
Defined.

(** ** The row loop of [main] *)

Section Rows.

Variable to_int : text -> result Z.
Variable J : json_module.

Lemma write_rows_from (rows : list row) :
  forall all written out outcome,
  (forall r, In r rows -> In r all) ->
  Forall (comes_from to_int J all) written ->
  write_rows to_int J rows written = (out, outcome) ->
  Forall (comes_from to_int J all) out.
Proof.
  induction rows as [|r rows IH]; intros all written out outcome Sub Fw H;
    cbn [write_rows] in H.
  - now inversion H; subst.
  - destruct (to_int (row_record_id r)) as [id|e] eqn:Ei;
      [|now inversion H; subst].
    destruct (process_record J id (row_data_json r)) as [[json flag]|e] eqn:Ep;
      [|now inversion H; subst].
    assert (Sub' : forall x, In x rows -> In x all)
      by (intros x Hx; apply Sub; now right).
    destruct flag; [|exact (IH _ _ _ _ Sub' Fw H)].
    apply (IH _ _ _ _ Sub') in H; [exact H|].
    apply Forall_app. split; [exact Fw|]. constructor; [|constructor].
    split; [reflexivity|]. exists r. cbn [out_record_id out_redacted_data_json].
    repeat split; auto. apply Sub. now left.
Qed.

(** X20: every row handed to the writer carries [is_pii = True], the
    record id of an input row and the redacted payload that
    [process_record] returned for that row with the flag true; a record
    that is not flagged is never written. *)
Theorem only_flagged_rows_written (rows : list row) (out : list out_row)
  (outcome : option exn) :
  main_loop to_int J rows = (out, outcome) ->
  Forall (comes_from to_int J rows) out.
Proof.
  intros H. apply (write_rows_from rows rows [] out outcome); auto.
Qed.

Lemma write_rows_skip (rows1 : list row) (r : row) (rows2 : list row)
  (id : Z) (json : text) :
  to_int (row_record_id r) = Ok id ->
  process_record J id (row_data_json r) = Ok (json, false) ->
  forall written,
  write_rows to_int J (rows1 ++ r :: rows2) written
  = write_rows to_int J (rows1 ++ rows2) written.
Proof.
  intros Ei Ep. induction rows1 as [|x rows1 IH]; intros written.
  - cbn [app write_rows]. now rewrite Ei, Ep.
  - cbn [app write_rows].
    destruct (to_int (row_record_id x)); [|reflexivity].
    destruct (process_record J a (row_data_json x)) as [[j f]|]; [|reflexivity].
    destruct f; apply IH.
Qed.

(** X21: a row whose record id is an integer and whose payload
    [json.loads] rejects leaves no trace: the loop writes nothing for it and
    goes on, so the run is the run on the input without that row. *)
Theorem malformed_row_skipped (rows1 : list row) (r : row)
  (rows2 : list row) (id : Z) :
  to_int (row_record_id r) = Ok id ->
  json_loads J (row_data_json r) = None ->
  main_loop to_int J (rows1 ++ r :: rows2)
  = main_loop to_int J (rows1 ++ rows2).
Proof.
  intros Ei El. unfold main_loop.
  apply (write_rows_skip rows1 r rows2 id (row_data_json r) Ei).
  unfold process_record. now rewrite El.
Qed.

Lemma write_rows_app (rows1 rows2 : list row) :
  forall written out,
  write_rows to_int J rows1 written = (out, None) ->
  write_rows to_int J (rows1 ++ rows2) written
  = write_rows to_int J rows2 out.
Proof.
  induction rows1 as [|x rows1 IH]; intros written out H;
    cbn [app write_rows] in *.
  - now inversion H.
  - destruct (to_int (row_record_id x)); [|discriminate].
    destruct (process_record J a (row_data_json x)) as [[j f]|];
      [|discriminate].
    destruct f; now apply IH.
Qed.

(** X22: an exception in [process_record] is not caught by the loop: the
    run ends at that row with the rows written so far, and no later row is
    read, whatever it holds. *)
Theorem raising_row_ends_run (rows1 : list row) (r : row)
  (rows2 : list row) (id : Z) (e : exn) (out : list out_row) :
  main_loop to_int J rows1 = (out, None) ->
  to_int (row_record_id r) = Ok id ->
  process_record J id (row_data_json r) = Raise e ->
  main_loop to_int J (rows1 ++ r :: rows2) = (out, Some e).
Proof.
  intros H1 Ei Ep. unfold main_loop in *.
  rewrite (write_rows_app rows1 (r :: rows2) [] out H1).
  cbn [write_rows]. now rewrite Ei, Ep.
Qed.

End Rows.

Lemma only_flagged_rows_written_witness :
  Forall (comes_from sample_int sample_json
            [mkRow (T "1") (dq (T "{'phone': '9876543210', 'city': 'Pune'}"));
             mkRow (T "2") (dq (T "{'name': "))])
    [mkOut 1 (dq (T "{'phone': '98XXXXXX10', 'city': 'Pune'}")) true].
Proof.
  apply (only_flagged_rows_written sample_int sample_json _ _ None).
  reflexivity.
Defined.

Lemma malformed_row_skipped_witness :
  main_loop sample_int sample_json
    ([mkRow (T "1") (dq (T "{'phone': '9876543210', 'city': 'Pune'}"))]
     ++ mkRow (T "2") (dq (T "{'name': ")) :: [])
  = main_loop sample_int sample_json
      ([mkRow (T "1") (dq (T "{'phone': '9876543210', 'city': 'Pune'}"))]
       ++ []).
Proof.
  apply (malformed_row_skipped sample_int sample_json _ _ _ 2); reflexivity.
Defined.

Lemma raising_row_ends_run_witness :
  main_loop sample_int sample_json
    ([mkRow (T "1") (dq (T "{'phone': '9876543210', 'city': 'Pune'}"))]
     ++ mkRow (T "2") (dq (T "[1, 2]"))
     :: [mkRow (T "3") (dq (T "{'order': 9876543210, 'city': 'Pune'}"))])
  = ([mkOut 1 (dq (T "{'phone': '98XXXXXX10', 'city': 'Pune'}")) true],
     Some AttributeError).
Proof.
  apply (raising_row_ends_run sample_int sample_json _ _ _ 2); reflexivity.
Defined.

(** ** Masked values do not match again *)

Lemma nth_error_middle_char (a b : text) (x : ascii) :
  nth_error (a ++ x :: b) (length a) = Some x.
Proof.
  rewrite nth_error_app2, Nat.sub_diag; [reflexivity | lia].
Qed.

Lemma no_run_across (n : nat) (a b : text) (x : ascii) :
  is_digit x = false -> length a < n -> length b < n ->
  ~ word_bounded_run n (a ++ x :: b).
Proof.
  intros Nx La Lb (pre & ds & post & E & L & A & _).
  assert (Len : length a + S (length b)
                = length pre + (length ds + length post)).
  { rewrite <- !length_app, <- E, length_app. reflexivity. }
  assert (Hx : nth_error (pre ++ ds ++ post) (length a) = Some x).
  { rewrite <- E. apply nth_error_middle_char. }
  rewrite nth_error_app2 in Hx by lia.
  rewrite nth_error_app1 in Hx by lia.
  apply nth_error_In in Hx. rewrite forallb_forall in A.
  rewrite (A x Hx) in Nx. discriminate.
Qed.

Lemma no_token_across (n : nat) (a b : text) (x : ascii) :
  0 < n -> is_digit x = false -> length a < n -> length b < n ->
  found (search (digit_token n) (a ++ x :: b)) = false.
Proof.
  intros Hn Nx La Lb.
  destruct (found (search (digit_token n) (a ++ x :: b))) eqn:F;
    [|reflexivity].
  destruct (no_run_across n a b x Nx La Lb).
  now apply digit_token_found_run.
Qed.

Lemma passport_mask_no_match (c : ascii) :
  found (search passport_pattern (c :: T "XXXXXXX")) = false.
Proof.
  destruct (found (search passport_pattern (c :: T "XXXXXXX"))) eqn:F;
    [|reflexivity].
  destruct (found_search _ _ F) as (pre & g & rest & E & M).
  simpl in M.
  destruct M as (w1 & w2 & -> & [-> _] & w3 & w4 & -> & [L3 _]
                 & w5 & w6 & -> & [L5 A5] & [-> _]).
  assert (Len : length (c :: T "XXXXXXX")
                = length (pre ++ ([] ++ w3 ++ w5 ++ []) ++ rest))
    by now rewrite E.
  rewrite !length_app in Len. simpl in Len.
  destruct pre as [|p pre]; [|simpl in Len; lia].
  destruct w3 as [|u [|? ?]]; try discriminate.
  simpl in E. inversion E as [[Ec Ex]].
  destruct w5 as [|d w5]; [discriminate|].
  simpl in Ex. inversion Ex; subst d. simpl in A5. discriminate.
Qed.

(** X23: what [redact_value] returns under the key [phone] contains no
    word-bounded 10-digit token, what it returns under [aadhar] contains no
    word-bounded 12-digit token, and what it returns under [passport] is not
    matched by the passport pattern: a value on which the rule's own pattern
    matches is always masked beyond recognition by that pattern. *)
Theorem masked_value_does_not_match_again (s : text) :
  (exists r, redact_value (T "phone") (VStr s) = Ok (VStr r) /\
             found (search phone_pattern r) = false) /\
  (exists r, redact_value (T "aadhar") (VStr s) = Ok (VStr r) /\
             found (search aadhar_pattern r) = false) /\
  (exists r, redact_value (T "passport") (VStr s) = Ok (VStr r) /\
             found (search passport_pattern r) = false).
Proof.
  repeat split.
  - unfold redact_value. rewrite text_eqb_refl. cbn [andb].
    destruct (found (search phone_pattern s)) eqn:F.
    + eexists. split; [reflexivity|].
      change (T "XXXXXX") with ("X"%char :: T "XXXXX").
      apply (no_token_across 10 (slice_to 2 s) (T "XXXXX" ++ slice_last 2 s));
        [lia | reflexivity | |].
      * unfold slice_to. pose proof (firstn_le_length 2 s). lia.
      * rewrite length_app. unfold slice_last. rewrite length_skipn.
        simpl. lia.
    + exists s. split; [reflexivity | exact F].
  - unfold redact_value.
    change (text_eqb (T "aadhar") (T "phone")) with false.
    rewrite text_eqb_refl. cbn [andb].
    destruct (found (search aadhar_pattern s)) eqn:F.
    + eexists. split; [reflexivity|].
      change (T "XXXX XXXX ") with (T "XXXX" ++ " "%char :: T "XXXX ").
      rewrite <- app_assoc.
      apply (no_token_across 12 (T "XXXX") (T "XXXX " ++ slice_last 4 s));
        [lia | reflexivity | simpl; lia |].
      rewrite length_app. unfold slice_last. rewrite length_skipn.
      simpl. lia.
    + exists s. split; [reflexivity | exact F].
  - unfold redact_value.
    change (text_eqb (T "passport") (T "phone")) with false.
    change (text_eqb (T "passport") (T "aadhar")) with false.
    rewrite text_eqb_refl. cbn [andb].
    destruct (found (search passport_pattern s)) eqn:F.
    + destruct s as [|c s]; [discriminate F|].
      exists (c :: T "XXXXXXX"). split; [reflexivity|].
      apply passport_mask_no_match.
    + exists s. split; [reflexivity | exact F].
Qed.
